(** * satfetch: batch fetch scheduler and response demultiplexer

    A shallow embedding of [FetchTLEsForSATCAT] and of the scheduling loop
    of [main] (src/satfetch.go), with the Go library calls they make.

    Conventions of the embedding.
    - A Go [string] is a sequence of bytes: [String.string], one [ascii]
      per byte.
    - A Go [int] is 64 bits wide: a [Z] in [min_int, max_int]; the one
      addition the code performs on cursors is wrapped explicitly.
    - The file system is a finite map from path names to contents; an
      [*os.File] opened with [O_APPEND] is identified with the path it was
      opened on, and writing through it appends to that path.
    - The process ends in one of three ways: the function returns,
      [log.Fatal] exits the process, or a run-time panic unwinds it.
    - Output on stdout ([fmt.Printf], [fmt.Println]) and the timing log line
      are not part of the model; the conflict log line is. *)

From Stdlib Require Import ZArith String Ascii List Bool Lia.
From stdpp Require Import base option list gmap strings.

Local Open Scope string_scope.
Local Open Scope list_scope.
Local Open Scope Z_scope.

(** ** Go primitives *)

Module Go.

(** [int] on a 64-bit platform. *)
Definition min_int : Z := - 2 ^ 63.
Definition max_int : Z := 2 ^ 63 - 1.

Definition is_int (z : Z) : Prop := min_int <= z <= max_int.

Definition is_intb (z : Z) : bool := (min_int <=? z) && (z <=? max_int).

(** Two's-complement wrap-around of [int] arithmetic. *)
Definition wrap_int (z : Z) : Z := (z + 2 ^ 63) mod 2 ^ 64 - 2 ^ 63.

(** [s[lo:hi]] on a string with constant bounds given as naturals: a
    run-time panic ([None]) unless [lo <= hi <= len(s)]. *)
Definition str_slice (s : string) (lo hi : nat) : option string :=
  if ((lo <=? hi)%nat && (hi <=? String.length s)%nat)%bool
  then Some (substring lo (hi - lo) s)
  else None.

(** [s[:len(s)-1]], the form used on the query; panics on the empty
    string. *)
Fixpoint drop_last (s : string) : option string :=
  match s with
  | EmptyString => None
  | String c EmptyString => Some EmptyString
  | String c s' => option_map (String c) (drop_last s')
  end.

(** [strings.Split(s, sep)] for a separator of one byte.  The result has
    one more element than [s] has separators; it is never empty. *)
Fixpoint Split (s : string) (sep : ascii) : list string :=
  match s with
  | EmptyString => [EmptyString]
  | String c s' =>
      if Ascii.eqb c sep then EmptyString :: Split s' sep
      else match Split s' sep with
           | [] => [String c EmptyString]
           | seg :: segs => String c seg :: segs
           end
  end.

(** [strings.TrimLeft(s, cutset)] and [strings.TrimRight(s, cutset)] for a
    cutset of one byte, and [strings.Trim], their composition. *)
Fixpoint TrimLeft (s : string) (cut : ascii) : string :=
  match s with
  | EmptyString => EmptyString
  | String c s' => if Ascii.eqb c cut then TrimLeft s' cut else s
  end.

Fixpoint TrimRight (s : string) (cut : ascii) : string :=
  match s with
  | EmptyString => EmptyString
  | String c s' =>
      match TrimRight s' cut with
      | EmptyString => if Ascii.eqb c cut then EmptyString else String c EmptyString
      | t => String c t
      end
  end.

Definition Trim (s : string) (cut : ascii) : string :=
  TrimRight (TrimLeft s cut) cut.

(** Decimal digits. *)
Definition digit (c : ascii) : option Z :=
  let n := Z.of_nat (nat_of_ascii c) in
  if (48 <=? n) && (n <=? 57) then Some (n - 48) else None.

(** The digit loop of [strconv.ParseUint] in base 10, without its
    overflow cut-off (the range is checked by [Atoi] below). *)
Fixpoint digits (acc : Z) (s : string) : option Z :=
  match s with
  | EmptyString => Some acc
  | String c s' =>
      match digit c with
      | None => None
      | Some d => digits (acc * 10 + d) s'
      end
  end.

(** [strconv.Atoi]: an optional sign followed by at least one decimal
    digit; a syntax error or a value outside [int] gives an error
    ([None]). *)
Definition Atoi (s : string) : option Z :=
  match s with
  | EmptyString => None
  | String c s' =>
      let neg := Ascii.eqb c "-" in
      let body := if Ascii.eqb c "-" || Ascii.eqb c "+" then s' else s in
      match body with
      | EmptyString => None
      | _ =>
          match digits 0 body with
          | None => None
          | Some n =>
              let v := if neg then - n else n in
              if is_intb v then Some v else None
          end
      end
  end.

End Go.

Import Go.

(** ** The program *)

Definition nl : ascii := "010"%char.
Definition space : ascii := " "%char.

(** [SatcatRow]: a row of the Space Track satellite catalog. *)
Record SatcatRow := {
  IntlDes : string;  NORADID : string;  ObjectType : string;  SatName : string;
  Country : string;  LaunchDate : string;  LaunchSite : string;  DecayDate : string;
  Period : string;  Inclination : string;  Apogeee : string;  Perigee : string;
  Comment : string;  CommentCode : string;  RCSValue : string;  RCSSize : string;
  FileID : string;  LaunchYear : string;  LaunchNum : string;  LaunchPiece : string;
  IsCurrent : string;  ObjectName : string;  ObjectID : string;  ObjectNum : string
}.

(** The zero value of [SatcatRow]. *)
Definition zero_row : SatcatRow :=
  Build_SatcatRow "" "" "" "" "" "" "" "" "" "" "" "" "" "" "" "" "" "" "" "" "" "" "" "".

(** A [[]SatcatRow]: its elements, and the capacity its backing array has
    beyond them.  [ParseSATCATCSV] grows the slice with [append] from nil,
    so the spare part of the backing array holds zero values. *)
Record Rows := { elems : list SatcatRow; spare : nat }.

Definition backing (s : Rows) : list SatcatRow :=
  elems s ++ replicate (spare s) zero_row.

Definition cap (s : Rows) : Z := Z.of_nat (length (backing s)).

(** [s[lo:hi]] on a slice: a run-time panic ([None]) unless
    [0 <= lo <= hi <= cap(s)]; the bound is the capacity, not the
    length. *)
Definition slice (s : Rows) (lo hi : Z) : option (list SatcatRow) :=
  if (0 <=? lo) && (lo <=? hi) && (hi <=? cap s)
  then Some (take (Z.to_nat (hi - lo)) (drop (Z.to_nat lo) (backing s)))
  else None.

(** How control leaves a piece of code: normally, through [log.Fatal]
    (which exits the process), or through a panic. *)
Inductive outcome := Normal | Exit | Panic.

#[global] Instance outcome_eq_dec : EqDecision outcome.
Proof. solve_decision. Defined.

(** What the process does to its surroundings, in order: the files it
    creates, the conflict line it logs, the requests it posts. *)
Inductive event :=
| Created (path : string)
| LogSkip (path : string)
| Posted (url query : string).

Record World := { fs : gmap string string; events : list event }.

(** The surroundings the process cannot control: its environment
    variables, which paths cannot be created (permissions, a missing
    directory, I/O), what the remote service answers to the n-th request
    ([None]: the transport fails), and which writes fail. *)
Record Env := {
  Getenv : string -> string;
  create_denied : string -> bool;
  PostForm : nat -> string -> string -> option string;
  write_denied : string -> string -> bool
}.

Definition emit (e : event) (w : World) : World :=
  {| fs := fs w; events := events w ++ [e] |}.

Definition is_post (e : event) : bool :=
  match e with Posted _ _ => true | _ => false end.

Definition is_created (e : event) : option string :=
  match e with Created p => Some p | _ => None end.

Definition posts (w : World) : nat := length (filter is_post (events w)).

Definition created (evs : list event) : list string := omap is_created evs.

(** [os.OpenFile(name, O_APPEND|O_WRONLY|O_CREATE|O_EXCL, 0600)] *)
Inductive open_result :=
| Opened (f : string)
| ErrExist
| ErrOther.

Definition OpenFile (env : Env) (name : string) (w : World) : open_result * World :=
  if create_denied env name then (ErrOther, w)
  else match fs w !! name with
       | Some _ => (ErrExist, w)
       | None => (Opened name, emit (Created name) {| fs := <[name := ""]> (fs w); events := events w |})
       end.

(** The bytes of a file; a path that names no file reads as empty. *)
Definition content (m : gmap string string) (path : string) : string :=
  default "" (m !! path).

(** [f.WriteString(s)] on a handle opened with [O_APPEND]; a failed write
    is taken to append nothing. *)
Definition WriteString (env : Env) (f : string) (s : string) (w : World) : outcome * World :=
  if write_denied env f s then (Panic, w)
  else (Normal, {| fs := <[f := content (fs w) f +:+ s]> (fs w); events := events w |}).

(** [STPOST]: one request; a transport error panics. *)
Definition STPOST (env : Env) (postURL query : string) (w : World) : option string * World :=
  (PostForm env (posts w) postURL query, emit (Posted postURL query) w).

(** The variables of [FetchTLEsForSATCAT] that the first loop builds. *)
Record Claims := {
  noradIDQuery : string;
  noradIDs : list string;
  files : gmap Z string
}.

Definition no_claims : Claims :=
  {| noradIDQuery := ""; noradIDs := []; files := ∅ |}.

Definition tle_path (destDir id : string) : string :=
  destDir +:+ "/" +:+ id +:+ ".tle".

(** The body of the first loop (lines 144-165).  The deferred [f.Close()]
    runs when the function returns, after the last use of the handle, and
    does nothing on the nil handle of a failed open. *)
Definition claim (env : Env) (destDir : string) (v : SatcatRow) (c : Claims) (w : World)
  : outcome * Claims * World :=
  let filename := tle_path destDir (NORADID v) in
  match OpenFile env filename w with
  | (Opened f, w1) =>
      let c1 := {| noradIDQuery := noradIDQuery c +:+ NORADID v +:+ ",";
                   noradIDs := noradIDs c ++ [NORADID v];
                   files := files c |} in
      match Atoi (NORADID v) with
      | None => (Exit, c1, w1)
      | Some noradIDnumerical =>
          (Normal, {| noradIDQuery := noradIDQuery c1;
                      noradIDs := noradIDs c1;
                      files := <[noradIDnumerical := f]> (files c1) |}, w1)
      end
  | (ErrExist, w1) => (Normal, c, emit (LogSkip filename) w1)
  | (ErrOther, w1) => (Exit, c, w1)
  end.

Fixpoint claim_loop (env : Env) (destDir : string) (window : list SatcatRow)
  (c : Claims) (w : World) : outcome * Claims * World :=
  match window with
  | [] => (Normal, c, w)
  | v :: rest =>
      match claim env destDir v c w with
      | (Normal, c1, w1) => claim_loop env destDir rest c1 w1
      | stop => stop
      end
  end.

(** The body of the second loop (lines 187-196). *)
Definition route (env : Env) (files : gmap Z string) (line : string) (w : World)
  : outcome * World :=
  match str_slice line 2 7 with
  | None => (Panic, w)
  | Some field =>
      match Atoi (Trim field space) with
      | None => (Exit, w)
      | Some noradID =>
          match files !! noradID with
          | Some f => WriteString env f line w
          | None => (Normal, w)
          end
      end
  end.

Fixpoint demux (env : Env) (files : gmap Z string) (lines : list string) (w : World)
  : outcome * World :=
  match lines with
  | [] => (Normal, w)
  | line :: rest =>
      match route env files line w with
      | (Normal, w1) => demux env files rest w1
      | stop => stop
      end
  end.

(** Lines 184-197: split the response and run the second loop over
    [lines[0 .. len(lines)-2]]. *)
Definition demux_response (env : Env) (files : gmap Z string) (resp : string) (w : World)
  : outcome * World :=
  demux env files (removelast (Split resp nl)) w.

Definition query_url (env : Env) (ids : string) : string :=
  Getenv env "SPACETRACKAPIROOT" +:+ "/query/class/tle/NORAD_CAT_ID/" +:+ ids
    +:+ "/orderby/EPOCH asc/format/tle/metadata/false".

Definition FetchTLEsForSATCAT (env : Env) (satcatRows : Rows) (startRow numToFetch : Z)
  (destDir : string) (w : World) : outcome * World :=
  match slice satcatRows startRow (wrap_int (startRow + numToFetch)) with
  | None => (Panic, w)
  | Some window =>
      match claim_loop env destDir window no_claims w with
      | (Normal, c, w1) =>
          if String.eqb (noradIDQuery c) "" then (Normal, w1)
          else
            match drop_last (noradIDQuery c) with
            | None => (Panic, w1)
            | Some ids =>
                match STPOST env (Getenv env "SPACETRACKLOGINURL") (query_url env ids) w1 with
                | (None, w2) => (Panic, w2)
                | (Some resp, w2) => demux_response env (files c) resp w2
                end
            end
      | (stop, _, w1) => (stop, w1)
      end
  end.

(** The two events the loop of [main] selects on. *)
Inductive signal := Tick | Interrupt.

(** The [for { select ... }] loop of [main] over the signals that arrive;
    it returns the cursor [lastFetched] with the outcome. *)
Fixpoint event_loop (env : Env) (satcatRows : Rows) (batchSize : Z) (tleDir : string)
  (signals : list signal) (lastFetched : Z) (w : World) : outcome * Z * World :=
  match signals with
  | [] => (Normal, lastFetched, w)
  | Interrupt :: _ => (Normal, lastFetched, w)
  | Tick :: rest =>
      match FetchTLEsForSATCAT env satcatRows lastFetched batchSize tleDir w with
      | (Normal, w1) =>
          event_loop env satcatRows batchSize tleDir rest (wrap_int (lastFetched + batchSize)) w1
      | (stop, w1) => (stop, lastFetched, w1)
      end
  end.

(** [main] once the catalog is parsed: the print of the first and last
    identifier indexes the catalog, the first cycle runs at once when
    [-tle] is given, and only then is the clock started. *)
Definition main (env : Env) (satcatRows : Rows) (fetchTLEs : bool) (batchSize : Z)
  (tleDir : string) (signals : list signal) (w : World) : outcome * Z * World :=
  match elems satcatRows with
  | [] => (Panic, 0, w)
  | _ =>
      if fetchTLEs
      then event_loop env satcatRows batchSize tleDir (Tick :: signals) 0 w
      else (Normal, 0, w)
  end.

(** [n] cycles in a row: the first one and [n - 1] ticks. *)
Definition cycles (n : nat) : list signal := replicate n Tick.

(** ** Notions the statements are written with *)

(** The identifier a response line carries: bytes 2 to 6, spaces trimmed,
    read as an integer.  [None] when the line is too short or the field
    does not parse. *)
Definition line_id (line : string) : option Z :=
  match str_slice line 2 7 with
  | None => None
  | Some field => Atoi (Trim field space)
  end.

(** The sink a line is routed to, if any. *)
Definition sink_of (files : gmap Z string) (line : string) : option string :=
  match line_id line with
  | None => None
  | Some noradID => files !! noradID
  end.

Definition routed_to (files : gmap Z string) (path : string) (line : string) : bool :=
  bool_decide (sink_of files line = Some path).

(** What a sequence of lines contributes to one sink: the lines routed to
    it, in order, one after the other with nothing in between. *)
Fixpoint fragments (files : gmap Z string) (path : string) (lines : list string) : string :=
  match lines with
  | [] => ""
  | line :: rest =>
      if routed_to files path line then line +:+ fragments files path rest
      else fragments files path rest
  end.

(** The lines the second loop runs over. *)
Definition response_lines (resp : string) : list string :=
  removelast (Split resp nl).

Fixpoint has_byte (c : ascii) (s : string) : bool :=
  match s with
  | EmptyString => false
  | String c' s' => Ascii.eqb c' c || has_byte c s'
  end.

(** Line breaks in a file, and the lines a reader of the file sees. *)
Fixpoint count_byte (c : ascii) (s : string) : nat :=
  match s with
  | EmptyString => 0%nat
  | String c' s' => ((if Ascii.eqb c' c then 1 else 0) + count_byte c s')%nat
  end.

(** The lines of a file: the segments between its line breaks, the last
    one counted only when bytes follow the last line break. *)
Definition line_count (s : string) : nat :=
  match reverse (Split s nl) with
  | EmptyString :: segs => length segs
  | segs => length segs
  end.

Definition matching_lines (id : Z) (lines : list string) : list string :=
  filter (λ line, line_id line = Some id) lines.

(** The first loop of a cycle on its own: [None] when the window
    expression panics, and otherwise how the loop ends, with the variables
    it built. *)
Definition claim_phase (env : Env) (satcatRows : Rows) (startRow numToFetch : Z)
  (destDir : string) (w : World) : option (outcome * Claims * World) :=
  match slice satcatRows startRow (wrap_int (startRow + numToFetch)) with
  | None => None
  | Some window => Some (claim_loop env destDir window no_claims w)
  end.

(** The identifiers that survive the claim step of a cycle. *)
Definition claimed (env : Env) (satcatRows : Rows) (startRow numToFetch : Z)
  (destDir : string) (w : World) : list string :=
  match claim_phase env satcatRows startRow numToFetch destDir w with
  | None => []
  | Some (_, c, _) => noradIDs c
  end.

(** Identifiers joined by commas, as the query carries them. *)
Fixpoint join (ids : list string) : string :=
  match ids with
  | [] => ""
  | [id] => id
  | id :: rest => id +:+ "," +:+ join rest
  end.

(** The query as the first loop accumulates it, a comma after each
    identifier. *)
Fixpoint with_commas (ids : list string) : string :=
  match ids with
  | [] => ""
  | id :: rest => id +:+ "," +:+ with_commas rest
  end.

(** What happened between two states of the world. *)
Definition new_events (w w' : World) : list event :=
  drop (length (events w)) (events w').

(** [w'] comes after [w]: the trace was extended, no file disappeared,
    every file created in between was created once, did not exist before
    and exists after. *)
Definition grows (w w' : World) : Prop :=
  exists evs,
    events w' = events w ++ evs
    /\ NoDup (created evs)
    /\ (forall p, p ∈ created evs -> fs w !! p = None /\ is_Some (fs w' !! p))
    /\ (forall p, is_Some (fs w !! p) -> is_Some (fs w' !! p)).

(** Lines written one after the other, as [WriteString] leaves them. *)
Fixpoint concat_lines (lines : list string) : string :=
  match lines with
  | [] => ""
  | line :: rest => line +:+ concat_lines rest
  end.

(** The rows of the [k]-th window of [b] rows from row [c] on, and the
    path of the artifact of a row. *)
Definition window_rows (rows : Rows) (c b k : nat) : list SatcatRow :=
  take b (drop (c + k * b) (elems rows)).

Definition artifact (destDir : string) (v : SatcatRow) : string :=
  tle_path destDir (NORADID v).

Definition numeric_id (v : SatcatRow) : option Z := Atoi (NORADID v).

(** ** The other functions of the program *)

(** [ioutil.WriteFile(filename, data, 0644)]: the file is created or
    truncated, then written; either step can fail, and a failed write is
    taken to leave the file empty.  [false] stands for a non-nil error. *)
Definition WriteFile (env : Env) (filename data : string) (w : World) : bool * World :=
  if create_denied env filename then (false, w)
  else
    let w1 :=
      match fs w !! filename with
      | Some _ => {| fs := <[filename := ""]> (fs w); events := events w |}
      | None =>
          emit (Created filename) {| fs := <[filename := ""]> (fs w); events := events w |}
      end in
    if write_denied env filename data then (false, w1)
    else (true, {| fs := <[filename := data]> (fs w1); events := events w1 |}).

(** [FetchSATCAT] (lines 38-48). *)
Definition FetchSATCAT (env : Env) (w : World) : outcome * World :=
  let queryURL :=
    Getenv env "SPACETRACKAPIROOT"
      +:+ "/query/class/satcat/orderby/LAUNCH asc/format/tle/metadata/false" in
  match STPOST env (Getenv env "SPACETRACKLOGINURL") queryURL w with
  | (None, w1) => (Panic, w1)
  | (Some resp, w1) =>
      match WriteFile env "satcat.csv" resp w1 with
      | (true, w2) => (Normal, w2)
      | (false, w2) => (Panic, w2)
      end
  end.

(** [FetchTLEs] (lines 52-67). *)
Definition FetchTLEs (env : Env) (noradId destdir : string) (w : World) : outcome * World :=
  let queryURL :=
    Getenv env "SPACETRACKAPIROOT" +:+ "/query/class/tle/NORAD_CAT_ID/" +:+ noradId
      +:+ "/orderby/EPOCH asc/format/tle/metadata/false" in
  match STPOST env (Getenv env "SPACETRACKLOGINURL") queryURL w with
  | (None, w1) => (Panic, w1)
  | (Some resp, w1) =>
      let filename := noradId +:+ ".tle" in
      match WriteFile env (destdir +:+ "/" +:+ filename) resp w1 with
      | (true, w2) => (Normal, w2)
      | (false, w2) => (Panic, w2)
      end
  end.

(** What [csvReader.Read()] returns, call after call, until it returns
    [io.EOF]: a record, or an error other than [io.EOF].  The CSV syntax
    itself is the library's; with its default settings the reader reports
    a record whose number of fields differs from that of the first record
    as an error. *)
Inductive csv_read :=
| CsvRecord (r : list string)
| CsvError.

(** The struct literal of lines 95-99: [r[0]] to [r[23]], a panic when the
    record is shorter. *)
Definition row_of_record (r : list string) : option SatcatRow :=
  match r with
  | r0 :: r1 :: r2 :: r3 :: r4 :: r5 :: r6 :: r7 :: r8 :: r9 :: r10 :: r11 :: r12 :: r13 :: r14 :: r15 :: r16 :: r17 :: r18 :: r19 :: r20 :: r21 :: r22 :: r23 :: _ =>
      Some (Build_SatcatRow r0 r1 r2 r3 r4 r5 r6 r7 r8 r9 r10 r11 r12 r13 r14 r15 r16 r17 r18 r19 r20 r21 r22 r23)
  | _ => None
  end.

(** The loop of lines 86-101 over the reads that follow the header. *)
Fixpoint read_rows (reads : list csv_read) (satcatRows : list SatcatRow)
  : outcome * list SatcatRow :=
  match reads with
  | [] => (Normal, satcatRows)
  | CsvError :: _ => (Exit, satcatRows)
  | CsvRecord r :: rest =>
      match row_of_record r with
      | None => (Panic, satcatRows)
      | Some satcatRow => read_rows rest (satcatRows ++ [satcatRow])
      end
  end.

(** [ParseSATCATCSV] (lines 70-104) on a file that cannot be opened
    ([None]) or on what the CSV reader yields from it.  The first read is
    the header: only [io.EOF] is looked at there. *)
Definition ParseSATCATCSV (file : option (list csv_read)) : outcome * list SatcatRow :=
  match file with
  | None => (Exit, [])
  | Some [] => (Exit, [])
  | Some (_ :: reads) => read_rows reads []
  end.

(** ** Further notions *)

(** The columns of a catalog row, in file order. *)
Definition fields_of_row (v : SatcatRow) : list string :=
  [IntlDes v;
   NORADID v;
   ObjectType v;
   SatName v;
   Country v;
   LaunchDate v;
   LaunchSite v;
   DecayDate v;
   Period v;
   Inclination v;
   Apogeee v;
   Perigee v;
   Comment v;
   CommentCode v;
   RCSValue v;
   RCSSize v;
   FileID v;
   LaunchYear v;
   LaunchNum v;
   LaunchPiece v;
   IsCurrent v;
   ObjectName v;
   ObjectID v;
   ObjectNum v].

(** [strings.Join(elems, sep)] for a separator of one byte. *)
Fixpoint Join (elems : list string) (sep : ascii) : string :=
  match elems with
  | [] => ""
  | [a] => a
  | a :: rest => a +:+ String sep (Join rest sep)
  end.

Definition comma : ascii := ","%char.

(** The rows of a window whose artifact is not there yet. *)
Definition unclaimed (destDir : string) (m : gmap string string) (window : list SatcatRow)
  : list SatcatRow :=
  filter (λ v, m !! artifact destDir v = None) window.

(** What the claim step leaves in the trace for a row. *)
Definition claim_event (destDir : string) (m : gmap string string) (v : SatcatRow) : event :=
  match m !! artifact destDir v with
  | None => Created (artifact destDir v)
  | Some _ => LogSkip (artifact destDir v)
  end.

(** The last row of a list that carries a numeric identifier. *)
Definition last_with_id (id : Z) (window : list SatcatRow) : option SatcatRow :=
  last (filter (λ v, numeric_id v = Some id) window).

(** [k] copies of a byte in front of a string. *)
Fixpoint pad (c : ascii) (k : nat) (s : string) : string :=
  match k with
  | O => s
  | S k' => String c (pad c k' s)
  end.

Definition starts_with_digit (s : string) : bool :=
  match s with
  | String c _ => match digit c with Some _ => true | None => false end
  | EmptyString => false
  end.

(** Every file of [w] is still there in [w'], with what it held at the
    front. *)
Definition append_only (w w' : World) : Prop :=
  forall p x, fs w !! p = Some x -> exists y, fs w' !! p = Some (x +:+ y).

(** The ticks that arrive before the first interrupt. *)
Fixpoint ticks_served (signals : list signal) : nat :=
  match signals with
  | Tick :: rest => S (ticks_served rest)
  | _ => 0%nat
  end.

(** ** Fixtures for the examples *)

Definition row (id : string) : SatcatRow :=
  Build_SatcatRow "" id "" "" "" "" "" "" "" "" "" "" "" "" "" "" "" "" "" "" "" "" "" "".

Definition ln (s : string) : string := s +:+ String nl "".

Definition resp_100_200 : string :=
  ln "1 00100U a" +:+ ln "2 00100 b" +:+ ln "1 00200U c" +:+ ln "2 00200 d".

Definition resp_300 : string := ln "1 00300U e" +:+ ln "2 00300 f".

(** Lines for 100 and 200 interleaved, with one for 300 in between. *)
Definition resp_mixed : string :=
  ln "1 00200U c" +:+ ln "1 00100U a" +:+ ln "1 00300U e" +:+ ln "2 00100 b"
    +:+ ln "2 00200 d".

(** A response with an empty line in the middle. *)
Definition resp_gap : string := ln "1 00100U a" +:+ ln "" +:+ ln "2 00100 b".

(** A service that answers the first request with two records and every
    later one with a third; nothing is denied. *)
Definition env0 : Env :=
  {| Getenv := λ _, "";
     create_denied := λ _, false;
     PostForm := λ n _ _, match n with O => Some resp_100_200 | _ => Some resp_300 end;
     write_denied := λ _ _, false |}.

Definition w0 : World := {| fs := ∅; events := [] |}.

Definition catalog3 (sp : nat) : Rows :=
  {| elems := [row "100"; row "200"; row "300"]; spare := sp |}.

(** A world in which the artifacts of 100 and 200 exist. *)
Definition w_done : World :=
  {| fs := <["tle/200.tle" := "2 00200 d"]> (<["tle/100.tle" := "1 00100U a"]> ∅);
     events := [] |}.

(** An output directory that cannot be written to. *)
Definition env_denied : Env :=
  {| Getenv := λ _, "";
     create_denied := λ _, true;
     PostForm := λ _ _ _, Some "";
     write_denied := λ _ _, false |}.

Definition catalog2 : Rows := {| elems := [row "100"; row "200"]; spare := 0 |}.

Definition catalog4 : Rows :=
  {| elems := [row "100"; row "200"; row "300"; row "400"]; spare := 0 |}.

(** What [env0] answers, by request. *)
Definition resp0 (k : nat) : string :=
  match k with O => resp_100_200 | _ => resp_300 end.

Definition files_100_200 : gmap Z string :=
  <[200 := "tle/200.tle"]> (<[100 := "tle/100.tle"]> ∅).

(** A service that cannot be reached. *)
Definition env_offline : Env :=
  {| Getenv := λ _, "";
     create_denied := λ _, false;
     PostForm := λ _ _ _, None;
     write_denied := λ _ _, false |}.


Definition catalog_abc : Rows := {| elems := [row "abc"; row "100"]; spare := 0 |}.

(** A record of 25 columns with the identifier in the second, and the
    reads of a catalog file of a header and three rows. *)
Definition record (id : string) : list string := fields_of_row (row id) ++ ["extra"].

Definition catalog_reads : list csv_read :=
  [CsvRecord (record "NORAD_CAT_ID"); CsvRecord (record "100");
   CsvRecord (record "200"); CsvRecord (record "300")].

(** ** Go primitives: examples and lemmas *)

Example Split_ex1 : Split ("ab" +:+ String nl "cd" +:+ String nl "") nl = ["ab"; "cd"; ""].
Proof. reflexivity. Qed.

Example Split_ex2 : Split "" nl = [""].
Proof. reflexivity. Qed.

Example Trim_ex : Trim "  25 " space = "25".
Proof. reflexivity. Qed.

Example Atoi_ex1 : Atoi "00100" = Some 100.
Proof. reflexivity. Qed.

Example Atoi_ex2 :
  Atoi "-12" = Some (-12) /\ Atoi "+7" = Some 7 /\ Atoi "" = None
  /\ Atoi "-" = None /\ Atoi "1 2" = None /\ Atoi "12a" = None.
Proof. repeat split; reflexivity. Qed.

Example Atoi_ex3 :
  Atoi "9223372036854775807" = Some max_int /\ Atoi "9223372036854775808" = None
  /\ Atoi "-9223372036854775808" = Some min_int.
Proof. repeat split; reflexivity. Qed.

Lemma append_nil_l (s : string) : "" +:+ s = s.
Proof. reflexivity. Qed.

Lemma append_cons (c : ascii) (s t : string) : String c s +:+ t = String c (s +:+ t).
Proof. reflexivity. Qed.

Lemma append_nil_r (s : string) : s +:+ "" = s.
Proof.
  induction s as [|c s IH]; [reflexivity |].
  now rewrite append_cons, IH.
Qed.

Lemma append_assoc (a b c : string) : (a +:+ b) +:+ c = a +:+ (b +:+ c).
Proof.
  induction a as [|x a IH]; [reflexivity |].
  now rewrite !append_cons, IH.
Qed.

Lemma Split_nonempty (s : string) (sep : ascii) : Split s sep ≠ [].
Proof.
  destruct s as [|c s]; simpl; [discriminate |].
  destruct (Ascii.eqb c sep); [discriminate |].
  destruct (Split s sep); discriminate.
Qed.

Lemma Split_no_sep (t : string) (sep : ascii) :
  has_byte sep t = false -> Split t sep = [t].
Proof.
  induction t as [|c t IH]; simpl; intros Ht; [reflexivity |].
  apply orb_false_iff in Ht as [Hc Ht]. rewrite Hc, (IH Ht). reflexivity.
Qed.

(** Bytes after the last separator only change the last segment. *)
Lemma Split_append_tail (s t : string) (sep : ascii) :
  has_byte sep t = false ->
  exists final, Split (s +:+ t) sep = (removelast (Split s sep) ++ [final])%list.
Proof.
  intros Ht. induction s as [|c s IH].
  - exists t. rewrite append_nil_l. now apply Split_no_sep.
  - destruct IH as [final IH]. rewrite append_cons. simpl. rewrite IH.
    pose proof (Split_nonempty s sep) as Hne.
    destruct (Ascii.eqb c sep).
    + exists final.
      destruct (Split s sep) as [|x xs]; [congruence | reflexivity].
    + destruct (Split s sep) as [|x xs]; [congruence |].
      destruct xs as [|y ys]; simpl.
      * exists (String c final). reflexivity.
      * exists final. reflexivity.
Qed.

Lemma response_lines_tail (s t : string) :
  has_byte nl t = false -> response_lines (s +:+ t) = response_lines s.
Proof.
  intros Ht. unfold response_lines.
  destruct (Split_append_tail s t nl Ht) as [final ->].
  apply removelast_last.
Qed.

Lemma Split_append_newline (s t : string) :
  Split (s +:+ String nl t) nl = (Split s nl ++ Split t nl)%list.
Proof.
  induction s as [|c s IH]; [reflexivity |].
  rewrite append_cons. simpl. rewrite IH.
  destruct (Ascii.eqb c nl); [reflexivity |].
  pose proof (Split_nonempty s nl) as Hne.
  destruct (Split s nl); [congruence | reflexivity].
Qed.

(** The lines of a response that ends in a line break after [body]. *)
Lemma response_lines_newline (body last : string) :
  has_byte nl last = false ->
  response_lines (body +:+ String nl last) = Split body nl.
Proof.
  intros Hl. unfold response_lines.
  rewrite Split_append_newline, (Split_no_sep last nl Hl).
  apply removelast_last.
Qed.

Lemma str_slice_short (line : string) :
  (String.length line < 7)%nat -> str_slice line 2 7 = None.
Proof.
  intros H. unfold str_slice.
  assert ((7 <=? String.length line)%nat = false) as -> by (apply Nat.leb_gt; lia).
  reflexivity.
Qed.

Lemma str_slice_long (line : string) :
  (7 <= String.length line)%nat -> str_slice line 2 7 = Some (substring 2 5 line).
Proof.
  intros H. unfold str_slice.
  assert ((7 <=? String.length line)%nat = true) as -> by (apply Nat.leb_le; lia).
  reflexivity.
Qed.

(** ** The response demultiplexer *)

Section Demux.

Context (env : Env) (files : gmap Z string).

Lemma demux_app (l1 l2 : list string) (w : World) :
  demux env files (l1 ++ l2) w =
  match demux env files l1 w with
  | (Normal, w1) => demux env files l2 w1
  | stop => stop
  end.
Proof.
  revert w. induction l1 as [|line l1 IH]; intros w; simpl; [reflexivity |].
  destruct (route env files line w) as [[] w1]; auto.
Qed.

Lemma content_insert (m : gmap string string) (f p s : string) :
  content (<[f := s]> m) p = if decide (f = p) then s else content m p.
Proof.
  unfold content. rewrite lookup_insert. destruct (decide (f = p)); reflexivity.
Qed.

(** One step of the loop, when it goes on: the line went to its own sink
    or nowhere. *)
Lemma route_normal (line : string) (w w1 : World) :
  route env files line w = (Normal, w1) ->
  (forall path, content (fs w1) path =
     content (fs w) path +:+ (if routed_to files path line then line else ""))
  /\ events w1 = events w /\ is_Some (line_id line).
Proof.
  unfold route, routed_to, sink_of, line_id.
  destruct (str_slice line 2 7) as [field|]; [|discriminate].
  destruct (Atoi (Trim field space)) as [noradID|]; [|discriminate].
  destruct (files !! noradID) as [f|] eqn:Hf.
  - unfold WriteString. destruct (write_denied env f line); [discriminate |].
    intros [= <-]. simpl. split; [|split; [reflexivity | eauto]].
    intros path. rewrite content_insert.
    destruct (decide (f = path)) as [->|Hne].
    + rewrite bool_decide_eq_true_2; reflexivity.
    + rewrite bool_decide_eq_false_2 by congruence. now rewrite append_nil_r.
  - intros [= <-]. split; [|split; [reflexivity | eauto]].
    intros path. rewrite bool_decide_eq_false_2 by discriminate.
    now rewrite append_nil_r.
Qed.

(** One step of the loop, when it stops: nothing was written. *)
Lemma route_stop (line : string) (w w1 : World) (o : outcome) :
  route env files line w = (o, w1) -> o ≠ Normal -> w1 = w.
Proof.
  unfold route.
  destruct (str_slice line 2 7) as [field|]; [|now intros [= <- <-]].
  destruct (Atoi (Trim field space)) as [noradID|]; [|now intros [= <- <-]].
  destruct (files !! noradID) as [f|].
  - unfold WriteString. destruct (write_denied env f line); intros [= <- <-]; congruence.
  - intros [= <- <-]; congruence.
Qed.

(** A line that carries an identifier stops the loop only when its write
    is refused. *)
Lemma route_total (line : string) (w : World) :
  is_Some (line_id line) ->
  (forall f s, write_denied env f s = false) ->
  (route env files line w).1 = Normal.
Proof.
  unfold route, line_id. intros [id Hid] Hw.
  destruct (str_slice line 2 7) as [field|]; [|discriminate].
  rewrite Hid. destruct (files !! id) as [f|]; [|reflexivity].
  unfold WriteString. now rewrite Hw.
Qed.

(** The lines the loop got through, and what each sink received. *)
Lemma demux_reached (lines : list string) (w : World) :
  exists reached,
    reached `prefix_of` lines
    /\ ((demux env files lines w).1 = Normal -> reached = lines)
    /\ (forall path, content (fs (demux env files lines w).2) path =
          content (fs w) path +:+ fragments files path reached)
    /\ events (demux env files lines w).2 = events w.
Proof.
  revert w. induction lines as [|line lines IH]; intros w; simpl.
  - exists []. repeat split; auto. intros path. now rewrite append_nil_r.
  - destruct (route env files line w) as [o w1] eqn:Hr.
    destruct (decide (o = Normal)) as [->|Hstop].
    + destruct (route_normal _ _ _ Hr) as (Hc & He & _).
      destruct (IH w1) as (reached & Hp & Hn & Hcs & Hes).
      exists (line :: reached). repeat split.
      * now apply prefix_cons.
      * intros Ho. now rewrite (Hn Ho).
      * intros path. rewrite Hcs, Hc. simpl.
        destruct (routed_to files path line).
        -- now rewrite append_assoc.
        -- now rewrite append_nil_r.
      * now rewrite Hes.
    + rewrite (route_stop _ _ _ _ Hr Hstop).
      exists []. destruct o; [congruence | |]; simpl.
      all: split; [apply prefix_nil |].
      all: split; [discriminate |].
      all: split; [intros path; now rewrite append_nil_r | reflexivity].
Qed.

Lemma fragments_none (path : string) (lines : list string) :
  (forall line, line ∈ lines -> sink_of files line ≠ Some path) ->
  fragments files path lines = "".
Proof.
  induction lines as [|line lines IH]; intros H; simpl; [reflexivity |].
  unfold routed_to. rewrite bool_decide_eq_false_2.
  - apply IH. intros l Hl. apply H. now right.
  - apply H. now left.
Qed.

Lemma demux_total (lines : list string) (w : World) :
  Forall (λ line, is_Some (line_id line)) lines ->
  (forall f s, write_denied env f s = false) ->
  (demux env files lines w).1 = Normal.
Proof.
  intros Hl Hw. revert w. induction Hl as [|line lines Hid _ IH]; intros w; simpl.
  - reflexivity.
  - pose proof (route_total line w Hid Hw) as Hr.
    destruct (route env files line w) as [o w1]. simpl in Hr. subst o. apply IH.
Qed.

End Demux.

(** C1. Whatever the response and the sink map, each sink ends up with
    what it had, followed by exactly the lines routed to it (those whose
    identifier field, bytes 2 to 6 with spaces trimmed, parses to a key
    that the map sends to this sink), byte for byte, in order and with
    nothing in between; a sink no line is routed to is left as it was.
    The lines concerned are all the non-trailing lines when the loop
    completes, which it does whenever every such line carries an
    identifier and no write is refused; otherwise they are the lines
    before the one that stopped the process. *)
Theorem demux_routes_each_line (env : Env) (files : gmap Z string) (resp : string)
  (w : World) :
  exists reached,
    reached `prefix_of` response_lines resp
    /\ ((demux_response env files resp w).1 = Normal -> reached = response_lines resp)
    /\ (Forall (λ line, is_Some (line_id line)) (response_lines resp) ->
        (forall f s, write_denied env f s = false) ->
        (demux_response env files resp w).1 = Normal)
    /\ (forall path, content (fs (demux_response env files resp w).2) path =
          content (fs w) path +:+ fragments files path reached)
    /\ (forall path, (forall line, line ∈ reached -> sink_of files line ≠ Some path) ->
          content (fs (demux_response env files resp w).2) path = content (fs w) path).
Proof.
  unfold demux_response. fold (response_lines resp).
  destruct (demux_reached env files (response_lines resp) w) as (reached & Hp & Hn & Hc & _).
  exists reached. split; [exact Hp |]. split; [exact Hn |].
  split; [apply demux_total |]. split; [exact Hc |].
  intros path Hnone. rewrite Hc.
  rewrite fragments_none; [apply append_nil_r | exact Hnone].
Qed.

Lemma demux_routes_each_line_witness :
  content (fs (demux_response env0 files_100_200 resp_mixed w0).2) "tle/100.tle"
    = "1 00100U a2 00100 b"
  /\ content (fs (demux_response env0 files_100_200 resp_mixed w0).2) "tle/200.tle"
    = "1 00200U c2 00200 d".
Proof.
  destruct (demux_routes_each_line env0 files_100_200 resp_mixed w0)
    as (reached & _ & Hn & _ & Hc & _).
  rewrite !Hc, (Hn eq_refl). split; reflexivity.
Defined.

(** C6. A non-trailing line whose identifier parses but is not a key of
    the sink map is dropped: the loop ends as it would on the response
    without that line, with the same outcome and the same files. *)
Theorem unmapped_line_dropped (env : Env) (files : gmap Z string) (resp : string)
  (l1 l2 : list string) (line : string) (id : Z) (w : World) :
  response_lines resp = l1 ++ line :: l2 ->
  line_id line = Some id ->
  files !! id = None ->
  route env files line w = (Normal, w)
  /\ demux_response env files resp w = demux env files (l1 ++ l2) w.
Proof.
  intros Hl Hid Hf.
  assert (forall w', route env files line w' = (Normal, w')) as Hr.
  { intros w'. unfold route. unfold line_id in Hid.
    destruct (str_slice line 2 7) as [field|]; [|discriminate].
    now rewrite Hid, Hf. }
  split; [apply Hr |].
  unfold demux_response. fold (response_lines resp). rewrite Hl.
  rewrite !demux_app. destruct (demux env files l1 w) as [[] w1]; try reflexivity.
  simpl. now rewrite Hr.
Qed.

Lemma unmapped_line_dropped_witness :
  demux_response env0 files_100_200 resp_mixed w0 =
  demux env0 files_100_200
    ["1 00200U c"; "1 00100U a"; "2 00100 b"; "2 00200 d"] w0.
Proof.
  apply (unmapped_line_dropped env0 files_100_200 resp_mixed
           ["1 00200U c"; "1 00100U a"] ["2 00100 b"; "2 00200 d"] "1 00300U e" 300 w0);
    reflexivity.
Defined.

(** C7, as the claim states it, fails: a line whose identifier is not in
    the sink map does not stop the process. *)
Lemma unmapped_identifier_is_not_fatal :
  response_lines (ln "1 00300U e") = ["1 00300U e"]
  /\ line_id "1 00300U e" = Some 300
  /\ files_100_200 !! 300 = None
  /\ demux_response env0 files_100_200 (ln "1 00300U e") w0 = (Normal, w0).
Proof. repeat split; reflexivity. Qed.

(** C7, amended. Of a non-trailing line that the loop reaches: if its
    identifier field (bytes 2 to 6) does not parse, [log.Fatal] ends the
    process there and nothing more is written; if it parses to an
    identifier that is not in the sink map, the process does not stop and
    the loop goes on with the next line. *)
Theorem unparsable_fatal_unmapped_skipped (env : Env) (files : gmap Z string)
  (l1 l2 : list string) (line : string) (w : World) :
  (demux env files l1 w).1 = Normal ->
  ((7 <= String.length line)%nat -> line_id line = None ->
     demux env files (l1 ++ line :: l2) w = (Exit, (demux env files l1 w).2))
  /\ (forall id, line_id line = Some id -> files !! id = None ->
        demux env files (l1 ++ line :: l2) w = demux env files l2 (demux env files l1 w).2).
Proof.
  intros H1. rewrite demux_app.
  destruct (demux env files l1 w) as [o w1]. simpl in H1. subst o. simpl.
  unfold route, line_id. split.
  - intros Hlen. rewrite (str_slice_long line Hlen). now intros ->.
  - intros id. destruct (str_slice line 2 7) as [field|]; [|discriminate].
    now intros -> ->.
Qed.

Lemma unparsable_fatal_unmapped_skipped_witness :
  demux env0 files_100_200 ["1 00100U a"; "1 ?????U x"; "2 00100 b"] w0
    = (Exit, (demux env0 files_100_200 ["1 00100U a"] w0).2)
  /\ demux env0 files_100_200 ["1 00100U a"; "1 00300U e"; "2 00100 b"] w0
    = demux env0 files_100_200 ["2 00100 b"] (demux env0 files_100_200 ["1 00100U a"] w0).2.
Proof.
  split.
  - apply (unparsable_fatal_unmapped_skipped env0 files_100_200
             ["1 00100U a"] ["2 00100 b"] "1 ?????U x" w0); [reflexivity | | reflexivity].
    simpl. lia.
  - apply (unparsable_fatal_unmapped_skipped env0 files_100_200
             ["1 00100U a"] ["2 00100 b"] "1 00300U e" w0 eq_refl) with (id := 300);
      reflexivity.
Defined.

(** C9. The identifier field is taken with [line[2:7]] whatever the line:
    the slice exists exactly for lines of 7 bytes or more.  A non-trailing
    line shorter than that panics when the loop reaches it (it is not
    reported by [log.Fatal] as a parse failure), so a response that holds
    one never gets through the loop. *)
Theorem short_line_panics (env : Env) (files : gmap Z string) (resp : string)
  (l1 l2 : list string) (line : string) (w : World) :
  response_lines resp = l1 ++ line :: l2 ->
  (String.length line < 7)%nat ->
  (forall l, is_Some (str_slice l 2 7) <-> (7 <= String.length l)%nat)
  /\ route env files line w = (Panic, w)
  /\ ((demux env files l1 w).1 = Normal ->
      demux_response env files resp w = (Panic, (demux env files l1 w).2))
  /\ (demux_response env files resp w).1 ≠ Normal.
Proof.
  intros Hl Hlen.
  assert (forall w', route env files line w' = (Panic, w')) as Hr.
  { intros w'. unfold route. now rewrite (str_slice_short line Hlen). }
  split; [|split; [apply Hr |]].
  - intros l. destruct (Nat.le_gt_cases 7 (String.length l)) as [H|H].
    + rewrite (str_slice_long l H). split; eauto.
    + rewrite (str_slice_short l H). split; [intros [? [=]] | lia].
  - unfold demux_response. fold (response_lines resp). rewrite Hl, demux_app.
    destruct (demux env files l1 w) as [o w1]. simpl. rewrite Hr.
    split; [now intros -> |]. destruct o; simpl; discriminate.
Qed.

Lemma short_line_panics_witness :
  demux_response env0 files_100_200 resp_gap w0
    = (Panic, (demux env0 files_100_200 ["1 00100U a"] w0).2).
Proof.
  apply (short_line_panics env0 files_100_200 resp_gap ["1 00100U a"] ["2 00100 b"] "" w0);
    [reflexivity | simpl; lia | reflexivity].
Defined.

(** C10. The loop stops one short of the last segment of the split,
    empty or not: what follows the last line break of a response is never
    looked at and never written, and a response without a line break is
    not processed at all. *)
Theorem final_segment_discarded (env : Env) (files : gmap Z string) (body last : string)
  (w : World) :
  has_byte nl last = false ->
  demux_response env files (body +:+ String nl last) w = demux env files (Split body nl) w
  /\ demux_response env files last w = (Normal, w).
Proof.
  intros Hl. unfold demux_response. fold (response_lines (body +:+ String nl last)).
  rewrite (response_lines_newline body last Hl), (Split_no_sep last nl Hl).
  split; reflexivity.
Qed.

Lemma final_segment_discarded_witness :
  demux_response env0 files_100_200 (ln "1 00100U a" +:+ "2 00100 b") w0
    = demux env0 files_100_200 ["1 00100U a"] w0
  /\ demux_response env0 files_100_200 "2 00100 b" w0 = (Normal, w0).
Proof.
  apply (final_segment_discarded env0 files_100_200 "1 00100U a" "2 00100 b" w0).
  reflexivity.
Defined.

(** ** The world only grows *)

Lemma grows_refl (w : World) : grows w w.
Proof.
  exists []. rewrite app_nil_r. split; [reflexivity |]. split; [constructor |].
  split; [|auto]. intros p Hp. inversion Hp.
Qed.

Lemma created_app (a b : list event) : created (a ++ b) = created a ++ created b.
Proof. apply omap_app. Qed.

Lemma grows_trans (w1 w2 w3 : World) : grows w1 w2 -> grows w2 w3 -> grows w1 w3.
Proof.
  intros (e1 & He1 & Hn1 & Hc1 & Hd1) (e2 & He2 & Hn2 & Hc2 & Hd2).
  exists (e1 ++ e2). rewrite created_app. split; [|split; [|split]].
  - now rewrite He2, He1, app_assoc.
  - apply NoDup_app. split; [exact Hn1 |]. split; [|exact Hn2].
    intros p H1 H2. destruct (Hc1 p H1) as [_ [x Hx]].
    destruct (Hc2 p H2) as [Hnone _]. congruence.
  - intros p [H|H]%elem_of_app.
    + destruct (Hc1 p H) as [? ?]. auto.
    + destruct (Hc2 p H) as [Hnone Hsome]. split; [|exact Hsome].
      destruct (fs w1 !! p) eqn:E; [|reflexivity].
      destruct (Hd1 p (mk_is_Some _ _ E)) as [x Hx]. congruence.
  - auto.
Qed.

Lemma grows_emit (e : event) (w : World) : is_created e = None -> grows w (emit e w).
Proof.
  intros He. exists [e]. unfold created. simpl. rewrite He.
  split; [reflexivity |]. split; [constructor |].
  split; [|auto]. intros p Hp. inversion Hp.
Qed.

Lemma grows_OpenFile (env : Env) (name : string) (w : World) :
  grows w (OpenFile env name w).2.
Proof.
  unfold OpenFile. destruct (create_denied env name); [apply grows_refl |].
  destruct (fs w !! name) eqn:E; [apply grows_refl |].
  exists [Created name]. simpl. split; [reflexivity |]. split; [|split].
  - apply NoDup_singleton.
  - intros p ->%list_elem_of_singleton. split; [exact E |].
    rewrite lookup_insert_eq. eauto.
  - intros p Hp. rewrite lookup_insert. destruct (decide (name = p)); eauto.
Qed.

Lemma grows_WriteString (env : Env) (f s : string) (w : World) :
  grows w (WriteString env f s w).2.
Proof.
  unfold WriteString. destruct (write_denied env f s); [apply grows_refl |].
  exists []. simpl. rewrite app_nil_r. split; [reflexivity |]. split; [constructor |].
  split; [intros p Hp; inversion Hp |].
  intros p Hp. rewrite lookup_insert. destruct (decide (f = p)); eauto.
Qed.

Lemma grows_claim (env : Env) (dir : string) (v : SatcatRow) (c : Claims) (w : World) :
  grows w (claim env dir v c w).2.
Proof.
  unfold claim.
  pose proof (grows_OpenFile env (tle_path dir (NORADID v)) w) as H.
  destruct (OpenFile env (tle_path dir (NORADID v)) w) as [[f| |] w1]; simpl in *.
  - destruct (Atoi (NORADID v)); exact H.
  - eapply grows_trans; [exact H |]. now apply grows_emit.
  - exact H.
Qed.

Lemma grows_claim_loop (env : Env) (dir : string) (window : list SatcatRow)
  (c : Claims) (w : World) :
  grows w (claim_loop env dir window c w).2.
Proof.
  revert c w. induction window as [|v rest IH]; intros c w; simpl; [apply grows_refl |].
  pose proof (grows_claim env dir v c w) as H.
  destruct (claim env dir v c w) as [[[] c1] w1]; simpl in *; auto.
  eapply grows_trans; [exact H | apply IH].
Qed.

Lemma grows_route (env : Env) (files : gmap Z string) (line : string) (w : World) :
  grows w (route env files line w).2.
Proof.
  unfold route. destruct (str_slice line 2 7); [|apply grows_refl].
  destruct (Atoi _); [|apply grows_refl].
  destruct (files !! _); [apply grows_WriteString | apply grows_refl].
Qed.

Lemma grows_demux (env : Env) (files : gmap Z string) (lines : list string) (w : World) :
  grows w (demux env files lines w).2.
Proof.
  revert w. induction lines as [|line rest IH]; intros w; simpl; [apply grows_refl |].
  pose proof (grows_route env files line w) as H.
  destruct (route env files line w) as [[] w1]; simpl in *; auto.
  eapply grows_trans; [exact H | apply IH].
Qed.

Lemma grows_FetchTLEsForSATCAT (env : Env) (rows : Rows) (start num : Z) (dir : string)
  (w : World) :
  grows w (FetchTLEsForSATCAT env rows start num dir w).2.
Proof.
  unfold FetchTLEsForSATCAT.
  destruct (slice rows start (wrap_int (start + num))) as [window|]; [|apply grows_refl].
  pose proof (grows_claim_loop env dir window no_claims w) as H.
  destruct (claim_loop env dir window no_claims w) as [[[] c] w1]; simpl in *; auto.
  destruct (String.eqb (noradIDQuery c) ""); [exact H |].
  destruct (drop_last (noradIDQuery c)) as [ids|]; [|exact H].
  unfold STPOST.
  assert (grows w (emit (Posted (Getenv env "SPACETRACKLOGINURL") (query_url env ids)) w1)) as H2.
  { eapply grows_trans; [exact H |]. now apply grows_emit. }
  destruct (PostForm env (posts w1) _ _) as [resp|]; [|exact H2].
  eapply grows_trans; [exact H2 |]. apply grows_demux.
Qed.

Lemma grows_event_loop (env : Env) (rows : Rows) (batch : Z) (dir : string)
  (signals : list signal) (cursor : Z) (w : World) :
  grows w (event_loop env rows batch dir signals cursor w).2.
Proof.
  revert cursor w. induction signals as [|[] rest IH]; intros cursor w; simpl;
    try apply grows_refl.
  pose proof (grows_FetchTLEsForSATCAT env rows cursor batch dir w) as H.
  destruct (FetchTLEsForSATCAT env rows cursor batch dir w) as [[] w1]; simpl in *; auto.
  eapply grows_trans; [exact H | apply IH].
Qed.

Lemma new_events_app (w w' : World) (evs : list event) :
  events w' = events w ++ evs -> new_events w w' = evs.
Proof. intros H. unfold new_events. rewrite H. apply drop_app_length. Qed.

Lemma new_events_grows (w w' : World) :
  grows w w' ->
  events w' = events w ++ new_events w w'
  /\ NoDup (created (new_events w w'))
  /\ (forall p, is_Some (fs w !! p) -> p ∉ created (new_events w w')).
Proof.
  intros (evs & He & Hn & Hc & _). rewrite (new_events_app w w' evs He).
  split; [exact He |]. split; [exact Hn |].
  intros p [x Hx] Hin. destruct (Hc p Hin) as [Hnone _]. congruence.
Qed.

(** ** The claim step *)

Section Claim.

Context (env : Env) (destDir : string).

Lemma claim_loop_app (l1 l2 : list SatcatRow) (c : Claims) (w : World) :
  claim_loop env destDir (l1 ++ l2) c w =
  match claim_loop env destDir l1 c w with
  | (Normal, c1, w1) => claim_loop env destDir l2 c1 w1
  | stop => stop
  end.
Proof.
  revert c w. induction l1 as [|v l1 IH]; intros c w; simpl; [reflexivity |].
  destruct (claim env destDir v c w) as [[[] c1] w1]; auto.
Qed.

(** The three ways a claim attempt can go, by what the file system
    says. *)
Lemma claim_exists (v : SatcatRow) (c : Claims) (w : World) :
  create_denied env (tle_path destDir (NORADID v)) = false ->
  is_Some (fs w !! tle_path destDir (NORADID v)) ->
  claim env destDir v c w = (Normal, c, emit (LogSkip (tle_path destDir (NORADID v))) w).
Proof.
  intros Hd [x Hx]. unfold claim, OpenFile. now rewrite Hd, Hx.
Qed.

Lemma claim_denied (v : SatcatRow) (c : Claims) (w : World) :
  create_denied env (tle_path destDir (NORADID v)) = true ->
  claim env destDir v c w = (Exit, c, w).
Proof. intros Hd. unfold claim, OpenFile. now rewrite Hd. Qed.

Lemma claim_fresh (v : SatcatRow) (c : Claims) (w : World) :
  create_denied env (tle_path destDir (NORADID v)) = false ->
  fs w !! tle_path destDir (NORADID v) = None ->
  let path := tle_path destDir (NORADID v) in
  let w1 := emit (Created path) {| fs := <[path := ""]> (fs w); events := events w |} in
  let q := noradIDQuery c +:+ NORADID v +:+ "," in
  let ids := noradIDs c ++ [NORADID v] in
  claim env destDir v c w =
  match Atoi (NORADID v) with
  | Some n => (Normal, {| noradIDQuery := q; noradIDs := ids; files := <[n := path]> (files c) |}, w1)
  | None => (Exit, {| noradIDQuery := q; noradIDs := ids; files := files c |}, w1)
  end.
Proof.
  intros Hd Hf. unfold claim, OpenFile. rewrite Hd, Hf.
  destruct (Atoi (NORADID v)); reflexivity.
Qed.

Lemma with_commas_snoc (ids : list string) (id : string) :
  with_commas (ids ++ [id]) = with_commas ids +:+ id +:+ ",".
Proof.
  induction ids as [|x ids IH]; simpl.
  - reflexivity.
  - now rewrite IH, !append_assoc.
Qed.

(** What one attempt does to the variables of the loop and to the
    trace. *)
Lemma claim_invariant (v : SatcatRow) (c : Claims) (w : World) :
  noradIDQuery c = with_commas (noradIDs c) ->
  let r := claim env destDir v c w in
  noradIDQuery r.1.2 = with_commas (noradIDs r.1.2)
  /\ (exists evs, events r.2 = events w ++ evs /\ Forall (λ e, is_post e = false) evs)
  /\ (forall id, id ∈ noradIDs r.1.2 ->
        id ∈ noradIDs c \/ (id = NORADID v /\ fs w !! tle_path destDir id = None)).
Proof.
  intros Hq. unfold claim, OpenFile.
  destruct (create_denied env _).
  { simpl. split; [exact Hq |]. split; [|auto].
    exists []. now rewrite app_nil_r. }
  destruct (fs w !! tle_path destDir (NORADID v)) eqn:Hf.
  { simpl. split; [exact Hq |]. split; [|auto].
    exists [LogSkip (tle_path destDir (NORADID v))]. split; [reflexivity |].
    repeat constructor. }
  assert (noradIDQuery c +:+ NORADID v +:+ "," = with_commas (noradIDs c ++ [NORADID v]))
    as Hq1 by now rewrite with_commas_snoc, Hq.
  assert (forall id, id ∈ noradIDs c ++ [NORADID v] ->
            id ∈ noradIDs c \/ (id = NORADID v /\ fs w !! tle_path destDir id = None))
    as Hi1.
  { intros id [H|H]%elem_of_app; [now left |].
    apply list_elem_of_singleton in H. subst id. now right. }
  assert (exists evs, events w ++ [Created (tle_path destDir (NORADID v))] = events w ++ evs
                      /\ Forall (λ e, is_post e = false) evs) as Hev.
  { exists [Created (tle_path destDir (NORADID v))]. split; [reflexivity |].
    repeat constructor. }
  destruct (Atoi (NORADID v)); simpl; auto.
Qed.

Lemma claim_loop_invariant (window : list SatcatRow) (c : Claims) (w : World) :
  noradIDQuery c = with_commas (noradIDs c) ->
  let r := claim_loop env destDir window c w in
  noradIDQuery r.1.2 = with_commas (noradIDs r.1.2)
  /\ (exists evs, events r.2 = events w ++ evs /\ Forall (λ e, is_post e = false) evs)
  /\ (forall id, id ∈ noradIDs r.1.2 ->
        id ∈ noradIDs c \/ fs w !! tle_path destDir id = None).
Proof.
  revert c w. induction window as [|v rest IH]; intros c w Hq; simpl.
  - split; [exact Hq |]. split; [|auto]. exists []. now rewrite app_nil_r.
  - destruct (claim_invariant v c w Hq) as (Hq1 & (e1 & He1 & Hp1) & Hi1).
    pose proof (grows_claim env destDir v c w) as Hg.
    destruct (claim env destDir v c w) as [[o c1] w1]. simpl in *.
    assert (forall id, id ∈ noradIDs c1 ->
              id ∈ noradIDs c \/ fs w !! tle_path destDir id = None) as Hi1'.
    { intros id Hid. destruct (Hi1 id Hid) as [?|[_ ?]]; auto. }
    destruct o; simpl; try (split; [exact Hq1 | split; [eauto | exact Hi1']]).
    destruct (IH c1 w1 Hq1) as (Hq2 & (e2 & He2 & Hp2) & Hi2).
    split; [exact Hq2 |]. split.
    + exists (e1 ++ e2). split; [now rewrite He2, He1, app_assoc |].
      now apply Forall_app.
    + intros id Hid. destruct (Hi2 id Hid) as [H|H]; [now apply Hi1' |].
      right. destruct (fs w !! tle_path destDir id) eqn:E; [|reflexivity].
      destruct Hg as (_ & _ & _ & _ & Hd).
      destruct (Hd _ (mk_is_Some _ _ E)) as [x Hx]. congruence.
Qed.

End Claim.

Lemma with_commas_nil (ids : list string) : with_commas ids = "" <-> ids = [].
Proof.
  split; [|now intros ->].
  destruct ids as [|id ids]; [reflexivity |]. simpl.
  destruct id; discriminate.
Qed.

Lemma drop_last_snoc (s : string) (c : ascii) :
  drop_last (s +:+ String c "") = Some s.
Proof.
  induction s as [|x s IH]; [reflexivity |].
  rewrite append_cons. simpl. rewrite IH.
  destruct s; reflexivity.
Qed.

Lemma drop_last_prepend (a q j : string) :
  drop_last q = Some j -> drop_last (a +:+ q) = Some (a +:+ j).
Proof.
  intros H. induction a as [|x a IHa]; [exact H |].
  rewrite !append_cons. simpl. rewrite IHa.
  destruct (a +:+ q) eqn:E; [|reflexivity].
  destruct a; [|discriminate]. rewrite append_nil_l in E. subst q. discriminate.
Qed.

Lemma drop_last_with_commas (ids : list string) :
  ids ≠ [] -> drop_last (with_commas ids) = Some (join ids).
Proof.
  induction ids as [|id ids IH]; [congruence |]. intros _.
  destruct ids as [|id2 ids].
  - simpl. apply (drop_last_snoc id ","%char).
  - change (with_commas (id :: id2 :: ids))
      with (id +:+ "," +:+ with_commas (id2 :: ids)).
    change (join (id :: id2 :: ids)) with (id +:+ "," +:+ join (id2 :: ids)).
    rewrite <- !append_assoc. apply drop_last_prepend. apply IH. discriminate.
Qed.

(** ** One cycle *)

(** [FetchTLEsForSATCAT] in terms of its claim step: the request is made
    exactly when an identifier survived, and it carries the survivors
    joined by commas. *)
Lemma FetchTLEsForSATCAT_spec (env : Env) (rows : Rows) (start num : Z) (dir : string)
  (w : World) :
  FetchTLEsForSATCAT env rows start num dir w =
  match claim_phase env rows start num dir w with
  | None => (Panic, w)
  | Some (Normal, c, w1) =>
      match noradIDs c with
      | [] => (Normal, w1)
      | _ =>
          let url := Getenv env "SPACETRACKLOGINURL" in
          let query := query_url env (join (noradIDs c)) in
          match PostForm env (posts w1) url query with
          | None => (Panic, emit (Posted url query) w1)
          | Some resp => demux_response env (files c) resp (emit (Posted url query) w1)
          end
      end
  | Some (stop, _, w1) => (stop, w1)
  end.
Proof.
  unfold FetchTLEsForSATCAT, claim_phase.
  destruct (slice rows start (wrap_int (start + num))) as [window|]; [|reflexivity].
  destruct (claim_loop_invariant env dir window no_claims w eq_refl) as (Hq & _ & _).
  destruct (claim_loop env dir window no_claims w) as [[o c] w1]. simpl in Hq.
  destruct o; try reflexivity.
  destruct (noradIDs c) as [|id ids] eqn:Hids.
  - rewrite Hq. reflexivity.
  - assert (noradIDQuery c ≠ "") as Hne.
    { rewrite Hq. intros E%with_commas_nil. discriminate. }
    apply String.eqb_neq in Hne. rewrite Hne, Hq.
    rewrite drop_last_with_commas by discriminate. reflexivity.
Qed.

Lemma slice_overrun (rows : Rows) (lo hi : Z) : cap rows < hi -> slice rows lo hi = None.
Proof.
  intros H. unfold slice.
  assert ((hi <=? cap rows) = false) as -> by (apply Z.leb_gt; lia).
  now rewrite andb_false_r.
Qed.

(** A window expression that does not panic stays in [int]: the cursor
    then advances by the batch size itself. *)
Lemma slice_no_wrap (rows : Rows) (start num : Z) (window : list SatcatRow) :
  is_int start -> is_int num ->
  slice rows start (wrap_int (start + num)) = Some window ->
  wrap_int (start + num) = start + num.
Proof.
  unfold is_int, min_int, max_int, slice, wrap_int. intros Hs Hn.
  destruct (Z.leb_spec 0 start); [|discriminate].
  destruct (Z.leb_spec start ((start + num + 2 ^ 63) mod 2 ^ 64 - 2 ^ 63)); [|discriminate].
  intros _.
  destruct (Z_lt_le_dec (start + num) (2 ^ 63)) as [Hlt|Hge].
  - destruct (Z_lt_le_dec (start + num) (- 2 ^ 63)) as [Hneg|Hpos]; [lia |].
    rewrite Z.mod_small; lia.
  - exfalso.
    assert ((start + num + 2 ^ 63) mod 2 ^ 64 = start + num + 2 ^ 63 - 2 ^ 64) as E.
    { symmetry. apply Z.mod_unique with (q := 1); lia. }
    lia.
Qed.

(** C2 fails on the code: the window is the slice expression
    [satcatRows[startRow : startRow+numToFetch]] as it stands.  With the
    3-row catalog and batch size 2 the cycle at cursor 4 panics, with
    capacity 4 (what doubling by [append] gives) as with capacity 3; at
    cursor 2 the window panics with capacity 3, and with capacity 4 it runs
    over the zero value that follows the last row. *)
Theorem window_is_not_clamped (env : Env) (dir : string) (w : World) :
  FetchTLEsForSATCAT env (catalog3 1) 4 2 dir w = (Panic, w)
  /\ FetchTLEsForSATCAT env (catalog3 0) 4 2 dir w = (Panic, w)
  /\ FetchTLEsForSATCAT env (catalog3 0) 2 2 dir w = (Panic, w)
  /\ slice (catalog3 1) 2 (wrap_int (2 + 2)) = Some [row "300"; zero_row].
Proof.
  unfold FetchTLEsForSATCAT.
  rewrite !slice_overrun by (vm_compute; reflexivity).
  repeat split; reflexivity.
Qed.

(** The run of the 3-row catalog with batch size 2 from an empty output
    directory: the first cycle fetches 100 and 200; the second one never
    asks for 300.  With capacity 4 it creates the artifact of 300, then
    the artifact of the zero row, and stops on the empty identifier; with
    capacity 3 it panics on the window. *)
Example end_to_end_scenario :
  let r4 := main env0 (catalog3 1) true 2 "tle" [Tick; Tick] w0 in
  let r3 := main env0 (catalog3 0) true 2 "tle" [Tick; Tick] w0 in
  (r4.1.1, r4.1.2, posts r4.2) = (Exit, 2, 1%nat)
  /\ created (events r4.2) = ["tle/100.tle"; "tle/200.tle"; "tle/300.tle"; "tle/.tle"]
  /\ (r3.1.1, r3.1.2, posts r3.2) = (Panic, 2, 1%nat)
  /\ created (events r3.2) = ["tle/100.tle"; "tle/200.tle"].
Proof. vm_compute. repeat split; reflexivity. Qed.

(** C4. When no identifier survives the claim step no request is
    posted; and when the claim step completes with none, the cycle
    returns at once and the cursor advances by the batch size: a tick
    served from [cursor] leaves the loop at [cursor + batch], where the
    next cycle starts. *)
Theorem empty_claim_set_skips_request (env : Env) (rows : Rows) (batch : Z) (dir : string)
  (signals : list signal) (cursor : Z) (w : World) :
  is_int cursor -> is_int batch ->
  (claimed env rows cursor batch dir w = [] ->
     filter is_post (new_events w (FetchTLEsForSATCAT env rows cursor batch dir w).2) = [])
  /\ (forall c w1,
        claim_phase env rows cursor batch dir w = Some (Normal, c, w1) ->
        noradIDs c = [] ->
        FetchTLEsForSATCAT env rows cursor batch dir w = (Normal, w1)
        /\ event_loop env rows batch dir (Tick :: signals) cursor w
           = event_loop env rows batch dir signals (cursor + batch) w1
        /\ event_loop env rows batch dir [Tick] cursor w = (Normal, cursor + batch, w1)
        /\ event_loop env rows batch dir (Tick :: Interrupt :: signals) cursor w
           = (Normal, cursor + batch, w1)).
Proof.
  intros Hc Hb. split.
  - unfold claimed. rewrite FetchTLEsForSATCAT_spec.
    unfold claim_phase.
    destruct (slice rows cursor (wrap_int (cursor + batch))) as [window|].
    2:{ intros _. simpl. unfold new_events. now rewrite drop_all. }
    destruct (claim_loop_invariant env dir window no_claims w eq_refl)
      as (_ & (evs & He & Hp) & _).
    destruct (claim_loop env dir window no_claims w) as [[o c] w1]. simpl in *.
    intros ->.
    assert (filter is_post (new_events w w1) = []) as Hnone.
    { rewrite (new_events_app w w1 evs He). clear He.
      induction Hp as [|e evs He _ IH]; [reflexivity |].
      rewrite filter_cons. destruct (decide (is_post e)) as [Ht|_]; [|exact IH].
      rewrite He in Ht. destruct Ht. }
    destruct o; exact Hnone.
  - intros c w1 Hphase Hids.
    assert (FetchTLEsForSATCAT env rows cursor batch dir w = (Normal, w1)) as HF.
    { rewrite FetchTLEsForSATCAT_spec, Hphase, Hids. reflexivity. }
    split; [exact HF |]. simpl. rewrite HF.
    unfold claim_phase in Hphase.
    destruct (slice rows cursor (wrap_int (cursor + batch))) as [window|] eqn:Hs;
      [|discriminate].
    rewrite (slice_no_wrap rows cursor batch window Hc Hb Hs).
    repeat split; reflexivity.
Qed.

Lemma empty_claim_set_skips_request_witness :
  FetchTLEsForSATCAT env0 (catalog3 1) 0 2 "tle" w_done
    = (Normal, emit (LogSkip "tle/200.tle") (emit (LogSkip "tle/100.tle") w_done))
  /\ event_loop env0 (catalog3 1) 2 "tle" [Tick] 0 w_done
    = (Normal, 0 + 2, emit (LogSkip "tle/200.tle") (emit (LogSkip "tle/100.tle") w_done)).
Proof.
  assert (is_int 0) as H0 by (unfold is_int, min_int, max_int; lia).
  assert (is_int 2) as H2 by (unfold is_int, min_int, max_int; lia).
  destruct (proj2 (empty_claim_set_skips_request env0 (catalog3 1) 2 "tle" [] 0 w_done H0 H2)
              no_claims
              (emit (LogSkip "tle/200.tle") (emit (LogSkip "tle/100.tle") w_done))
              eq_refl eq_refl) as (HF & _ & Htick & _).
  split; [exact HF | exact Htick].
Defined.

Lemma OpenFile_cases (env : Env) (path : string) (w : World) :
  match (OpenFile env path w).1 with
  | Opened f => f = path /\ create_denied env path = false /\ fs w !! path = None
  | ErrExist => create_denied env path = false /\ is_Some (fs w !! path)
  | ErrOther => create_denied env path = true
  end.
Proof.
  unfold OpenFile. destruct (create_denied env path); [reflexivity |].
  destruct (fs w !! path) eqn:E; simpl; eauto.
Qed.

Lemma filter_post_free (evs : list event) :
  Forall (λ e, is_post e = false) evs -> filter is_post evs = [].
Proof.
  induction 1 as [|e evs He _ IH]; [reflexivity |].
  rewrite filter_cons. destruct (decide (is_post e)) as [Ht|_]; [|exact IH].
  rewrite He in Ht. destruct Ht.
Qed.

(** C5, as the claim states it, fails: a claim attempt has a third way
    to fail, and that one is a partial success.  The artifact of the row
    with identifier [abc] does not exist and its creation succeeds; the
    identifier is appended to the query; then it does not read as a number
    and [log.Fatal] ends the process, the artifact left behind.  The same
    happens on the 3-row catalog at cursor 2 with batch size 2, on the zero
    row that follows the last one. *)
Lemma claim_fails_after_creating_the_artifact :
  (OpenFile env0 "tle/abc.tle" w0).1 = Opened "tle/abc.tle"
  /\ claim env0 "tle" (row "abc") no_claims w0
     = (Exit,
        {| noradIDQuery := "abc,"; noradIDs := ["abc"]; files := ∅ |},
        {| fs := <["tle/abc.tle" := ""]> ∅; events := [Created "tle/abc.tle"] |})
  /\ FetchTLEsForSATCAT env0 (catalog3 1) 2 2 "tle" w0
     = (Exit,
        {| fs := <["tle/.tle" := ""]> (<["tle/300.tle" := ""]> ∅);
           events := [Created "tle/300.tle"; Created "tle/.tle"] |}).
Proof. repeat split; reflexivity. Qed.

(** C5, amended. A claim attempt, reached after the attempts before it
    went through, goes one of four ways.  The creation of the artifact
    fails in exactly two: if the artifact exists, the conflict is logged,
    the variables of the loop are left as they were (so the identifier is
    in neither the query nor the sink map) and the loop goes on with the
    next row; any other failure of the creation ends the process through
    [log.Fatal], nothing created and nothing requested.  Failing these two
    the file is created and the identifier appended to the query; then, if
    the identifier reads as a number, the sink is registered under that
    number and the loop goes on, and if it does not, [log.Fatal] ends the
    process with the artifact created and nothing requested. *)
Theorem claim_failure_modes (env : Env) (rows : Rows) (start num : Z) (dir : string)
  (pre rest : list SatcatRow) (v : SatcatRow) (w : World) :
  slice rows start (wrap_int (start + num)) = Some (pre ++ v :: rest) ->
  (claim_loop env dir pre no_claims w).1.1 = Normal ->
  let c1 := (claim_loop env dir pre no_claims w).1.2 in
  let w1 := (claim_loop env dir pre no_claims w).2 in
  let path := tle_path dir (NORADID v) in
  (create_denied env path = false -> is_Some (fs w1 !! path) ->
     claim env dir v c1 w1 = (Normal, c1, emit (LogSkip path) w1)
     /\ claim_loop env dir (pre ++ v :: rest) no_claims w
        = claim_loop env dir rest c1 (emit (LogSkip path) w1))
  /\ (create_denied env path = true ->
     claim env dir v c1 w1 = (Exit, c1, w1)
     /\ FetchTLEsForSATCAT env rows start num dir w = (Exit, w1))
  /\ match (OpenFile env path w1).1 with
     | Opened f => f = path /\ create_denied env path = false /\ fs w1 !! path = None
     | ErrExist => create_denied env path = false /\ is_Some (fs w1 !! path)
     | ErrOther => create_denied env path = true
     end
  /\ (create_denied env path = false -> fs w1 !! path = None ->
      let w2 := emit (Created path)
                  {| fs := <[path := ""]> (fs w1); events := events w1 |} in
      let q := noradIDQuery c1 +:+ NORADID v +:+ "," in
      let ids := noradIDs c1 ++ [NORADID v] in
      match Atoi (NORADID v) with
      | Some n =>
          claim env dir v c1 w1
          = (Normal, {| noradIDQuery := q; noradIDs := ids;
                        files := <[n := path]> (files c1) |}, w2)
          /\ claim_loop env dir (pre ++ v :: rest) no_claims w
             = claim_loop env dir rest
                 {| noradIDQuery := q; noradIDs := ids;
                    files := <[n := path]> (files c1) |} w2
      | None =>
          claim env dir v c1 w1
          = (Exit, {| noradIDQuery := q; noradIDs := ids; files := files c1 |}, w2)
          /\ FetchTLEsForSATCAT env rows start num dir w = (Exit, w2)
          /\ fs w2 !! path = Some ""
          /\ filter is_post (new_events w w2) = []
      end).
Proof.
  intros Hs Hpre. cbv zeta.
  assert (claim_loop env dir (pre ++ v :: rest) no_claims w =
          match claim env dir v (claim_loop env dir pre no_claims w).1.2
                  (claim_loop env dir pre no_claims w).2 with
          | (Normal, c2, w2) => claim_loop env dir rest c2 w2
          | stop => stop
          end) as Happ.
  { rewrite claim_loop_app.
    destruct (claim_loop env dir pre no_claims w) as [[o c1] w1].
    simpl in Hpre. subst o. reflexivity. }
  split; [|split; [|split; [apply OpenFile_cases |]]].
  - intros Hd Hex. rewrite Happ, (claim_exists env dir v _ _ Hd Hex). split; reflexivity.
  - intros Hd. pose proof (claim_denied env dir v (claim_loop env dir pre no_claims w).1.2
                             (claim_loop env dir pre no_claims w).2 Hd) as Hcl.
    split; [exact Hcl |].
    rewrite FetchTLEsForSATCAT_spec. unfold claim_phase. rewrite Hs, Happ, Hcl.
    reflexivity.
  - intros Hd Hfree.
    pose proof (claim_fresh env dir v (claim_loop env dir pre no_claims w).1.2
                  (claim_loop env dir pre no_claims w).2 Hd Hfree) as Hcl.
    cbv zeta in Hcl.
    destruct (claim_loop_invariant env dir pre no_claims w eq_refl)
      as (_ & (evs & Hev & Hnp) & _).
    destruct (Atoi (NORADID v)) as [n|].
    + split; [exact Hcl |]. now rewrite Happ, Hcl.
    + split; [exact Hcl |]. split; [|split].
      * rewrite FetchTLEsForSATCAT_spec. unfold claim_phase. rewrite Hs, Happ, Hcl.
        reflexivity.
      * simpl. apply lookup_insert_eq.
      * unfold new_events. simpl. rewrite Hev, <- app_assoc, drop_app_length, filter_app.
        rewrite (filter_post_free evs Hnp). reflexivity.
Qed.

Lemma claim_failure_modes_witness :
  claim_loop env0 "tle" [row "100"; row "200"] no_claims w_done
    = claim_loop env0 "tle" [row "200"] no_claims (emit (LogSkip "tle/100.tle") w_done)
  /\ FetchTLEsForSATCAT env_denied (catalog3 1) 0 2 "tle" w0 = (Exit, w0)
  /\ FetchTLEsForSATCAT env0 catalog_abc 0 2 "tle" w0
     = (Exit, emit (Created "tle/abc.tle")
                {| fs := <["tle/abc.tle" := ""]> (fs w0); events := events w0 |}).
Proof.
  split; [|split].
  - pose proof (claim_failure_modes env0 (catalog3 1) 0 2 "tle" [] [row "200"] (row "100")
                  w_done eq_refl eq_refl) as H.
    cbv zeta in H. destruct H as (H & _ & _).
    destruct (H eq_refl) as [_ Hloop]; [|exact Hloop].
    vm_compute. eauto.
  - pose proof (claim_failure_modes env_denied (catalog3 1) 0 2 "tle" [] [row "200"]
                  (row "100") w0 eq_refl eq_refl) as H.
    cbv zeta in H. destruct H as (_ & H & _).
    destruct (H eq_refl) as [_ HF]. exact HF.
  - pose proof (claim_failure_modes env0 catalog_abc 0 2 "tle" [] [row "100"]
                  (row "abc") w0 eq_refl eq_refl) as H.
    cbv zeta in H. destruct H as (_ & _ & _ & H).
    specialize (H eq_refl eq_refl).
    change (Atoi (NORADID (row "abc"))) with (@None Z) in H. cbv beta iota in H.
    exact (proj1 (proj2 H)).
Defined.


(** ** Artifacts of different identifiers are different files *)

Lemma length_append (a b : string) :
  String.length (a +:+ b) = (String.length a + String.length b)%nat.
Proof.
  induction a as [|x a IH]; [reflexivity |].
  rewrite append_cons. simpl. now rewrite IH.
Qed.

Lemma append_inj_r (a b t : string) : a +:+ t = b +:+ t -> a = b.
Proof.
  revert b. induction a as [|x a IH]; intros [|y b] H.
  - reflexivity.
  - apply (f_equal String.length) in H. rewrite append_nil_l, length_append in H.
    simpl in H. lia.
  - apply (f_equal String.length) in H. rewrite append_nil_l, length_append in H.
    simpl in H. lia.
  - rewrite !append_cons in H. injection H as -> H. f_equal. now apply IH.
Qed.

Lemma tle_path_inj (dir a b : string) : tle_path dir a = tle_path dir b -> a = b.
Proof.
  unfold tle_path. intros H.
  apply String.app_inj in H. apply String.app_inj in H.
  now apply append_inj_r in H.
Qed.

Lemma numeric_id_artifact (dir : string) (u v : SatcatRow) :
  artifact dir u = artifact dir v -> numeric_id u = numeric_id v.
Proof.
  unfold artifact, numeric_id. now intros ->%tle_path_inj.
Qed.


(** An identifier whose artifact is in place when the cycle starts does
    not survive the claim step. *)
Lemma existing_not_claimed (env : Env) (rows : Rows) (cursor batch : Z) (dir : string)
  (w : World) (id : string) :
  is_Some (fs w !! tle_path dir id) ->
  id ∉ claimed env rows cursor batch dir w.
Proof.
  intros Hex. unfold claimed, claim_phase.
  destruct (slice rows cursor (wrap_int (cursor + batch))) as [window|];
    [|apply not_elem_of_nil].
  destruct (claim_loop_invariant env dir window no_claims w eq_refl) as (_ & _ & Hi).
  destruct (claim_loop env dir window no_claims w) as [[o c] w1]. simpl in *.
  intros Hin. destruct (Hi id Hin) as [H|H].
  - inversion H.
  - destruct Hex as [x Hx]. congruence.
Qed.



(** ** A cycle without conflicts *)

Section FreshCycle.

Context (env : Env) (dir : string).

(** The claim step over rows with numeric, pairwise different
    identifiers whose artifacts do not exist and can be created: every row
    is claimed. *)
Lemma claim_loop_fresh (window : list SatcatRow) (c : Claims) (w : World) :
  Forall (λ v, is_Some (numeric_id v)) window ->
  NoDup (map numeric_id window) ->
  Forall (λ v, fs w !! artifact dir v = None) window ->
  Forall (λ v, create_denied env (artifact dir v) = false) window ->
  exists c' w',
    claim_loop env dir window c w = (Normal, c', w')
    /\ noradIDs c' = noradIDs c ++ map NORADID window
    /\ events w' = events w ++ map (λ v, Created (artifact dir v)) window
    /\ (forall v id, v ∈ window -> numeric_id v = Some id ->
          files c' !! id = Some (artifact dir v))
    /\ (forall id, Some id ∉ map numeric_id window -> files c' !! id = files c !! id)
    /\ (forall v, v ∈ window -> fs w' !! artifact dir v = Some "")
    /\ (forall p, p ∉ map (artifact dir) window -> fs w' !! p = fs w !! p).
Proof.
  revert c w. induction window as [|v rest IH]; intros c w Hnum Hnd Hfresh Hallow.
  - exists c, w. simpl. rewrite !app_nil_r.
    repeat split; auto; intros; exfalso; eapply not_elem_of_nil; eassumption.
  - apply Forall_cons in Hnum as [[n Hn] Hnum].
    apply NoDup_cons in Hnd as [Hv Hnd].
    apply Forall_cons in Hfresh as [Hfv Hfresh].
    apply Forall_cons in Hallow as [Hav Hallow].
    simpl. unfold artifact in Hfv, Hav. rewrite (claim_fresh env dir v c w Hav Hfv).
    pose proof Hn as Hn'. unfold numeric_id in Hn'. rewrite Hn'.
    set (c1 := {| noradIDQuery := noradIDQuery c +:+ NORADID v +:+ ",";
                  noradIDs := noradIDs c ++ [NORADID v];
                  files := <[n := tle_path dir (NORADID v)]> (files c) |}).
    set (w1 := emit (Created (tle_path dir (NORADID v)))
                 {| fs := <[tle_path dir (NORADID v) := ""]> (fs w); events := events w |}).
    assert (forall u, u ∈ rest -> artifact dir u ≠ artifact dir v) as Hdiff.
    { intros u Hu E. apply Hv. apply numeric_id_artifact in E. rewrite <- E.
      apply list_elem_of_fmap. eauto. }
    assert (artifact dir v ∉ map (artifact dir) rest) as Hvp.
    { intros (u & E & Hu)%list_elem_of_fmap. apply (Hdiff u Hu). now symmetry. }
    assert (Forall (λ u, fs w1 !! artifact dir u = None) rest) as Hfresh1.
    { rewrite Forall_forall in Hfresh |- *. intros u Hu. simpl.
      rewrite lookup_insert_ne; [now apply Hfresh |].
      intros E. apply (Hdiff u Hu). now symmetry. }
    destruct (IH c1 w1 Hnum Hnd Hfresh1 Hallow)
      as (c' & w' & Hrun & Hids & Hev & Hf1 & Hf3 & Hs1 & Hs2).
    exists c', w'. split; [exact Hrun |]. split; [|split; [|split; [|split; [|split]]]].
    + rewrite Hids. simpl. now rewrite <- app_assoc.
    + rewrite Hev. simpl. now rewrite <- app_assoc.
    + intros u id [->|Hu]%elem_of_cons Hid; [|now apply Hf1].
      assert (id = n) as -> by congruence.
      rewrite (Hf3 n) by (now rewrite <- Hn). simpl. apply lookup_insert_eq.
    + intros id Hid. apply not_elem_of_cons in Hid as [Hne Hid].
      rewrite (Hf3 id Hid). simpl. apply lookup_insert_ne. congruence.
    + intros u [->|Hu]%elem_of_cons; [|now apply Hs1].
      rewrite (Hs2 _ Hvp). simpl. apply lookup_insert_eq.
    + intros p Hp. apply not_elem_of_cons in Hp as [Hne Hp].
      rewrite (Hs2 p Hp). simpl. apply lookup_insert_ne. unfold artifact in Hne. congruence.
Qed.

(** The second loop touches no file outside the sink map. *)
Lemma demux_frame (files : gmap Z string) (lines : list string) (w : World) (p : string) :
  (forall id, files !! id ≠ Some p) ->
  fs (demux env files lines w).2 !! p = fs w !! p.
Proof.
  intros Hp. revert w. induction lines as [|line rest IH]; intros w; simpl; [reflexivity |].
  assert (fs (route env files line w).2 !! p = fs w !! p) as Hr.
  { unfold route. destruct (str_slice line 2 7); [|reflexivity].
    destruct (Atoi _) as [id|]; [|reflexivity].
    destruct (files !! id) as [f|] eqn:Hf; [|reflexivity].
    unfold WriteString. destruct (write_denied env f line); [reflexivity |].
    simpl. apply lookup_insert_ne. intros ->. exact (Hp id Hf). }
  destruct (route env files line w) as [[] w1]; simpl in *; auto.
  now rewrite IH.
Qed.

(** With a sink map that sends [id], and no other identifier, to [p],
    the sink [p] receives the lines of [id]. *)
Lemma fragments_matching (files : gmap Z string) (p : string) (id : Z)
  (lines : list string) :
  files !! id = Some p ->
  (forall id', files !! id' = Some p -> id' = id) ->
  fragments files p lines = concat_lines (matching_lines id lines).
Proof.
  intros Hid Honly. unfold matching_lines.
  induction lines as [|line rest IH]; [reflexivity |].
  simpl. rewrite filter_cons. unfold routed_to, sink_of.
  destruct (line_id line) as [k|] eqn:Hk.
  - destruct (decide (Some k = Some id)) as [[= ->]|Hne].
    + rewrite bool_decide_eq_true_2 by exact Hid. simpl. now rewrite IH.
    + rewrite bool_decide_eq_false_2; [exact IH |].
      intros E. apply Hne. f_equal. now apply Honly.
  - rewrite bool_decide_eq_false_2 by discriminate.
    destruct (decide (None = Some id)); [discriminate | exact IH].
Qed.

Lemma wrap_int_small (z : Z) : is_int z -> wrap_int z = z.
Proof.
  unfold is_int, min_int, max_int, wrap_int. intros H.
  rewrite Z.mod_small; lia.
Qed.

(** A window that lies within the rows of the catalog. *)
Lemma slice_window (rows : Rows) (c b : nat) :
  (c + b <= length (elems rows))%nat ->
  Z.of_nat (length (elems rows)) <= max_int ->
  slice rows (Z.of_nat c) (wrap_int (Z.of_nat c + Z.of_nat b))
  = Some (take b (drop c (elems rows))).
Proof.
  intros Hlen Hmax.
  rewrite wrap_int_small by (unfold is_int, min_int, max_int in *; lia).
  unfold slice, cap, backing. rewrite length_app.
  assert ((0 <=? Z.of_nat c) = true) as -> by (apply Z.leb_le; lia).
  assert ((Z.of_nat c <=? Z.of_nat c + Z.of_nat b) = true) as -> by (apply Z.leb_le; lia).
  assert ((Z.of_nat c + Z.of_nat b
             <=? Z.of_nat (length (elems rows) + length (replicate (spare rows) zero_row)))
          = true) as -> by (apply Z.leb_le; lia).
  simpl. f_equal.
  replace (Z.to_nat (Z.of_nat c + Z.of_nat b - Z.of_nat c)) with b by lia.
  rewrite Nat2Z.id, drop_app_le by lia.
  apply take_app_le. rewrite length_drop. lia.
Qed.

Lemma created_map_Created (paths : list string) :
  created (map Created paths) = paths.
Proof. induction paths as [|p paths IH]; simpl; [reflexivity | now rewrite IH]. Qed.

Lemma posts_app (w w' : World) (evs : list event) :
  events w' = events w ++ evs ->
  posts w' = (posts w + length (filter is_post evs))%nat.
Proof. intros H. unfold posts. now rewrite H, filter_app, length_app. Qed.

Lemma filter_post_Created (paths : list string) :
  filter is_post (map Created paths) = [].
Proof. induction paths as [|p paths IH]; [reflexivity | exact IH]. Qed.

(** One cycle over a window of rows within the catalog, with numeric and
    pairwise different identifiers, none of which has an artifact yet,
    answered by a response in which every line carries an identifier. *)
Lemma cycle_fresh (rows : Rows) (c b : nat) (w : World) (resp : string) :
  (0 < b)%nat ->
  (c + b <= length (elems rows))%nat ->
  Z.of_nat (length (elems rows)) <= max_int ->
  (forall f s, write_denied env f s = false) ->
  let window := take b (drop c (elems rows)) in
  let url := Getenv env "SPACETRACKLOGINURL" in
  let query := query_url env (join (map NORADID window)) in
  Forall (λ v, is_Some (numeric_id v)) window ->
  NoDup (map numeric_id window) ->
  Forall (λ v, fs w !! artifact dir v = None) window ->
  Forall (λ v, create_denied env (artifact dir v) = false) window ->
  PostForm env (posts w) url query = Some resp ->
  Forall (λ line, is_Some (line_id line)) (response_lines resp) ->
  exists w',
    FetchTLEsForSATCAT env rows (Z.of_nat c) (Z.of_nat b) dir w = (Normal, w')
    /\ events w' = events w ++ map Created (map (artifact dir) window) ++ [Posted url query]
    /\ (forall v id, v ∈ window -> numeric_id v = Some id ->
          fs w' !! artifact dir v
          = Some (concat_lines (matching_lines id (response_lines resp))))
    /\ (forall p, p ∉ map (artifact dir) window -> fs w' !! p = fs w !! p).
Proof.
  intros Hb Hlen Hmax Hwr window url query Hnum Hnd Hfresh Hallow Hpost Hwf.
  destruct (claim_loop_fresh window no_claims w Hnum Hnd Hfresh Hallow)
    as (c' & w1 & Hrun & Hids & Hev & Hf1 & Hf3 & Hs1 & Hs2).
  simpl in Hids.
  assert (forall id p, files c' !! id = Some p ->
            exists v, v ∈ window /\ numeric_id v = Some id /\ p = artifact dir v) as Hf2.
  { intros id p Hp. destruct (decide (Some id ∈ map numeric_id window)) as [Hin|Hout].
    - apply list_elem_of_fmap in Hin as (v & Hv & Hvin). exists v.
      rewrite (Hf1 v id Hvin (eq_sym Hv)) in Hp. split; [exact Hvin |].
      split; congruence.
    - rewrite (Hf3 id Hout) in Hp. simpl in Hp. rewrite lookup_empty in Hp. discriminate. }
  assert (posts w1 = posts w) as Hposts.
  { rewrite (posts_app w w1 _ Hev).
    replace (map (λ v, Created (artifact dir v)) window)
      with (map Created (map (artifact dir) window)) by now rewrite map_map.
    rewrite filter_post_Created. simpl. lia. }
  assert (map NORADID window ≠ []) as Hne.
  { intros E. apply (f_equal length) in E. rewrite length_map in E.
    unfold window in E. rewrite length_take, length_drop in E. simpl in E. lia. }
  set (w2 := emit (Posted url query) w1).
  assert (FetchTLEsForSATCAT env rows (Z.of_nat c) (Z.of_nat b) dir w
          = demux_response env (files c') resp w2) as HF.
  { rewrite FetchTLEsForSATCAT_spec. unfold claim_phase.
    rewrite (slice_window rows c b Hlen Hmax). fold window. rewrite Hrun, Hids.
    destruct (map NORADID window) as [|i ids] eqn:E; [congruence |].
    cbv zeta. rewrite Hposts. unfold w2, query, url in *. now rewrite Hpost. }
  unfold demux_response in HF. fold (response_lines resp) in HF.
  pose proof (demux_total env (files c') (response_lines resp) w2 Hwf Hwr) as Hnormal.
  destruct (demux_reached env (files c') (response_lines resp) w2)
    as (reached & _ & Hall & Hcont & Hevd).
  specialize (Hall Hnormal). subst reached.
  pose proof (grows_demux env (files c') (response_lines resp) w2) as (_ & _ & _ & _ & Hkeep).
  destruct (demux env (files c') (response_lines resp) w2) as [o w'] eqn:Hd.
  simpl in *. subst o. exists w'. split; [exact HF |]. split; [|split].
  - rewrite Hevd, Hev, map_map. now rewrite <- app_assoc.
  - intros v id Hv Hid.
    destruct (Hkeep (artifact dir v)) as [x Hx].
    { rewrite (Hs1 v Hv). eauto. }
    rewrite Hx. f_equal.
    assert (content (fs w') (artifact dir v) = x) as <- by (unfold content; now rewrite Hx).
    rewrite Hcont. unfold content at 1. rewrite (Hs1 v Hv). simpl. rewrite append_nil_l.
    apply fragments_matching; [now apply Hf1 |].
    intros id' Hid'. destruct (Hf2 id' _ Hid') as (u & Hu & Hidu & E).
    apply numeric_id_artifact in E. congruence.
  - intros p Hp. rewrite <- (Hs2 p) by exact Hp.
    change (fs w1 !! p) with (fs w2 !! p).
    replace w' with (demux env (files c') (response_lines resp) w2).2 by now rewrite Hd.
    apply demux_frame. intros id Hid. destruct (Hf2 id p Hid) as (u & Hu & _ & ->).
    apply Hp. apply list_elem_of_fmap. eauto.
Qed.

End FreshCycle.

(** ** A run without conflicts *)

Section FreshRun.

Context (env : Env) (dir : string) (rows : Rows) (b : nat).
Context (Hb : (0 < b)%nat).
Context (Hmax : Z.of_nat (length (elems rows)) <= max_int).
Context (Hwr : forall f s, write_denied env f s = false).

Lemma run_fresh (n : nat) : forall (c : nat) (w : World) (resp : nat -> string),
  (c + n * b <= length (elems rows))%nat ->
  let served := take (n * b) (drop c (elems rows)) in
  Forall (λ v, is_Some (numeric_id v)) served ->
  NoDup (map numeric_id served) ->
  Forall (λ v, fs w !! artifact dir v = None) served ->
  Forall (λ v, create_denied env (artifact dir v) = false) served ->
  (forall k, (k < n)%nat ->
     PostForm env (posts w + k) (Getenv env "SPACETRACKLOGINURL")
       (query_url env (join (map NORADID (window_rows rows c b k)))) = Some (resp k)) ->
  (forall k, (k < n)%nat -> Forall (λ line, is_Some (line_id line)) (response_lines (resp k))) ->
  let r := event_loop env rows (Z.of_nat b) dir (cycles n) (Z.of_nat c) w in
  r.1.1 = Normal
  /\ r.1.2 = Z.of_nat (c + n * b)
  /\ created (new_events w r.2) = map (artifact dir) served
  /\ (forall i v id, served !! i = Some v -> numeric_id v = Some id ->
        fs r.2 !! artifact dir v
        = Some (concat_lines (matching_lines id (response_lines (resp (i / b)%nat)))))
  /\ (forall p, p ∉ map (artifact dir) served -> fs r.2 !! p = fs w !! p).
Proof.
  induction n as [|n IH]; intros c w resp Hlen served Hnum Hnd Hfresh Hallow Hnet Hwf.
  - simpl. split; [reflexivity |]. split; [f_equal; lia |].
    split; [unfold new_events; now rewrite drop_all |].
    split; [|reflexivity]. intros i v id Hi. unfold served in Hi. simpl in Hi.
    try rewrite lookup_nil in Hi. discriminate.
  - set (window := take b (drop c (elems rows))).
    set (served' := take (n * b) (drop (c + b) (elems rows))).
    assert (served = window ++ served') as Hsplit.
    { unfold served, window, served'. simpl.
      rewrite <- (take_take_drop _ b (n * b)), drop_drop. reflexivity. }
    assert (length window = b) as Hlw.
    { unfold window. rewrite length_take, length_drop. simpl in Hlen. lia. }
    clearbody served. subst served.
    apply Forall_app in Hnum as [Hnum1 Hnum2].
    rewrite map_app in Hnd. apply NoDup_app in Hnd as (Hnd1 & Hcross & Hnd2).
    apply Forall_app in Hfresh as [Hfresh1 Hfresh2].
    apply Forall_app in Hallow as [Hallow1 Hallow2].
    assert (forall u, u ∈ served' -> artifact dir u ∉ map (artifact dir) window) as Hapart.
    { intros u Hu (v & E & Hv)%list_elem_of_fmap.
      apply numeric_id_artifact in E.
      apply (Hcross (numeric_id v)); [apply list_elem_of_fmap; eauto |].
      rewrite <- E. apply list_elem_of_fmap. eauto. }
    assert (PostForm env (posts w) (Getenv env "SPACETRACKLOGINURL")
              (query_url env (join (map NORADID window))) = Some (resp 0%nat)) as Hpost.
    { specialize (Hnet 0%nat ltac:(lia)). unfold window_rows in Hnet. simpl in Hnet.
      now rewrite !Nat.add_0_r in Hnet. }
    destruct (cycle_fresh env dir rows c b w (resp 0%nat) Hb ltac:(simpl in Hlen; lia) Hmax Hwr
                Hnum1 Hnd1 Hfresh1 Hallow1 Hpost (Hwf 0%nat ltac:(lia)))
      as (w1 & HF & Hev1 & Hcont1 & Hframe1).
    fold window in Hev1, Hcont1, Hframe1.
    assert (posts w1 = S (posts w)) as Hposts1.
    { rewrite (posts_app w w1 _ Hev1), filter_app, filter_post_Created. simpl. lia. }
    assert (Forall (λ v, fs w1 !! artifact dir v = None) served') as Hfresh2'.
    { rewrite Forall_forall in Hfresh2 |- *. intros u Hu.
      rewrite (Hframe1 _ (Hapart u Hu)). now apply Hfresh2. }
    assert (wrap_int (Z.of_nat c + Z.of_nat b) = Z.of_nat (c + b)) as Hwrap.
    { rewrite wrap_int_small; [lia |].
      unfold is_int, min_int, max_int in *. simpl in Hlen. lia. }
    specialize (IH (c + b)%nat w1 (λ k, resp (S k)) ltac:(simpl in Hlen; lia)
                  Hnum2 Hnd2 Hfresh2' Hallow2).
    assert (forall k, (k < n)%nat ->
              PostForm env (posts w1 + k) (Getenv env "SPACETRACKLOGINURL")
                (query_url env (join (map NORADID (window_rows rows (c + b) b k))))
              = Some (resp (S k))) as Hnet'.
    { intros k Hk. specialize (Hnet (S k) ltac:(lia)).
      rewrite Hposts1. unfold window_rows in *. simpl in Hnet.
      replace (S (posts w) + k)%nat with (posts w + S k)%nat by lia.
      replace (c + b + k * b)%nat with (c + (b + k * b))%nat by lia. exact Hnet. }
    specialize (IH Hnet' (λ k Hk, Hwf (S k) ltac:(lia))).
    cbv zeta in IH. fold served' in IH.
    cbv zeta. change (cycles (S n)) with (Tick :: cycles n). simpl event_loop.
    rewrite HF, Hwrap.
    pose proof (grows_event_loop env rows (Z.of_nat b) dir (cycles n) (Z.of_nat (c + b)) w1)
      as Hg.
    apply new_events_grows in Hg as (Hev2 & _ & _).
    destruct (event_loop env rows (Z.of_nat b) dir (cycles n) (Z.of_nat (c + b)) w1)
      as [[o cur] w2].
    simpl in *. destruct IH as (Ho & Hcur & Hcr & Hcont2 & Hframe2).
    split; [exact Ho |]. split; [rewrite Hcur; f_equal; lia |]. split; [|split].
    + rewrite (new_events_app w w2
                 ((map Created (map (artifact dir) window)
                     ++ [Posted (Getenv env "SPACETRACKLOGINURL")
                           (query_url env (join (map NORADID window)))])
                    ++ new_events w1 w2)).
      * rewrite !created_app, created_map_Created, Hcr, map_app.
        unfold created. simpl. now rewrite app_nil_r.
      * rewrite Hev2, Hev1, !app_assoc. reflexivity.
    + intros i v id Hi Hid. destruct (Nat.lt_ge_cases i b) as [Hlt|Hge].
      * rewrite lookup_app_l in Hi by lia.
        rewrite Nat.div_small by exact Hlt.
        rewrite Hframe2.
        -- apply Hcont1; [|exact Hid]. eapply list_elem_of_lookup_2. exact Hi.
        -- intros (u & E & Hu)%list_elem_of_fmap.
           apply numeric_id_artifact in E.
           apply (Hcross (numeric_id v)).
           ++ apply list_elem_of_fmap. exists v. split; [reflexivity |].
              eapply list_elem_of_lookup_2. exact Hi.
           ++ rewrite E. apply list_elem_of_fmap. eauto.
      * rewrite lookup_app_r in Hi by lia. rewrite Hlw in Hi.
        assert ((i / b)%nat = S ((i - b) / b)%nat) as ->.
        { replace i with ((i - b) + 1 * b)%nat at 1 by lia.
          rewrite Nat.div_add by lia. lia. }
        exact (Hcont2 _ _ _ Hi Hid).
    + intros p Hp. rewrite map_app in Hp. apply not_elem_of_app in Hp as [Hp1 Hp2].
      rewrite (Hframe2 p Hp2). now apply Hframe1.
Qed.

End FreshRun.

(** ** What an artifact holds *)

Lemma count_byte_append (c : ascii) (a b : string) :
  count_byte c (a +:+ b) = (count_byte c a + count_byte c b)%nat.
Proof.
  induction a as [|x a IH]; [reflexivity |].
  rewrite append_cons. simpl. rewrite IH. lia.
Qed.

Lemma Split_segments (s : string) (sep : ascii) :
  Forall (λ seg, count_byte sep seg = 0%nat) (Split s sep).
Proof.
  induction s as [|c s IH]; simpl; [repeat constructor |].
  destruct (Ascii.eqb c sep) eqn:E; [constructor; [reflexivity | exact IH] |].
  destruct (Split s sep) as [|seg segs]; [repeat constructor; simpl; now rewrite E |].
  apply Forall_cons in IH as [Hseg Hsegs].
  constructor; [simpl; now rewrite E, Hseg | exact Hsegs].
Qed.

Lemma response_lines_segments (resp : string) :
  Forall (λ line, count_byte nl line = 0%nat) (response_lines resp).
Proof.
  unfold response_lines. pose proof (Split_segments resp nl) as H.
  rewrite (app_removelast_last "" (Split_nonempty resp nl)) in H.
  now apply Forall_app in H as [H _].
Qed.

(** The lines written to an artifact follow one another without a line
    break. *)
Lemma concat_matching_no_newline (id : Z) (resp : string) :
  count_byte nl (concat_lines (matching_lines id (response_lines resp))) = 0%nat.
Proof.
  pose proof (response_lines_segments resp) as H. unfold matching_lines.
  induction H as [|line lines Hline _ IH]; [reflexivity |].
  rewrite filter_cons. destruct (decide (line_id line = Some id)); [|exact IH].
  simpl. now rewrite count_byte_append, Hline, IH.
Qed.

(** C8, as the claim states it, fails: with a catalog of 2 rows and
    batch size 2, the one cycle runs without a conflict on a response of
    two lines for 100 and two for 200; the artifact of 100 then holds both
    of its lines but on a single line, without any line break. *)
Lemma artifact_line_count_differs :
  let r := event_loop env0 catalog2 2 "tle" (cycles 1) 0 w0 in
  r.1.1 = Normal
  /\ created (new_events w0 r.2) = ["tle/100.tle"; "tle/200.tle"]
  /\ fs r.2 !! "tle/100.tle" = Some "1 00100U a2 00100 b"
  /\ length (matching_lines 100 (response_lines resp_100_200)) = 2%nat
  /\ count_byte nl (content (fs r.2) "tle/100.tle") = 0%nat
  /\ line_count (content (fs r.2) "tle/100.tle")
     ≠ length (matching_lines 100 (response_lines resp_100_200)).
Proof. vm_compute. repeat split; discriminate. Qed.

(** C8, amended. Let the first [n * b] rows of the catalog have numeric
    identifiers, different from one another, none of which has an artifact
    and all of whose artifacts can be created; let the service answer each
    of the [n] requests with a response in which every non-trailing line
    carries an identifier; let no write fail.  Then the first [n] cycles
    with batch size [b] all return, the cursor ends at [n * b], exactly
    the artifacts of these rows are created, once each and in catalog
    order, and the artifact of a row holds the non-trailing lines of the
    response of its own cycle that carry its identifier, in order and
    without a line break anywhere; no other file changes.  (This covers
    the [C / B] cycles of a catalog whose size [C] is a multiple of the
    batch size, and says nothing of a window that runs over the end of the
    catalog.) *)
Theorem artifacts_hold_matching_lines (env : Env) (dir : string) (rows : Rows) (b n : nat)
  (w : World) (resp : nat -> string) :
  (0 < b)%nat ->
  (n * b <= length (elems rows))%nat ->
  Z.of_nat (length (elems rows)) <= max_int ->
  (forall f s, write_denied env f s = false) ->
  let served := take (n * b) (elems rows) in
  Forall (λ v, is_Some (numeric_id v)) served ->
  NoDup (map numeric_id served) ->
  Forall (λ v, fs w !! artifact dir v = None) served ->
  Forall (λ v, create_denied env (artifact dir v) = false) served ->
  (forall k, (k < n)%nat ->
     PostForm env (posts w + k) (Getenv env "SPACETRACKLOGINURL")
       (query_url env (join (map NORADID (window_rows rows 0 b k)))) = Some (resp k)) ->
  (forall k, (k < n)%nat -> Forall (λ line, is_Some (line_id line)) (response_lines (resp k))) ->
  let r := event_loop env rows (Z.of_nat b) dir (cycles n) 0 w in
  r.1.1 = Normal
  /\ r.1.2 = Z.of_nat (n * b)
  /\ created (new_events w r.2) = map (artifact dir) served
  /\ (forall i v id, served !! i = Some v -> numeric_id v = Some id ->
        let lines := matching_lines id (response_lines (resp (i / b)%nat)) in
        fs r.2 !! artifact dir v = Some (concat_lines lines)
        /\ count_byte nl (concat_lines lines) = 0%nat)
  /\ (forall p, p ∉ map (artifact dir) served -> fs r.2 !! p = fs w !! p).
Proof.
  intros Hb Hlen Hmax Hwr served Hnum Hnd Hfresh Hallow Hnet Hwf.
  destruct (run_fresh env dir rows b Hb Hmax Hwr n 0%nat w resp Hlen Hnum Hnd Hfresh Hallow
              Hnet Hwf) as (Ho & Hcur & Hcr & Hcont & Hframe).
  change (Z.of_nat 0) with 0 in *. rewrite drop_0 in *. fold served in Hcr, Hcont, Hframe.
  cbv zeta. split; [exact Ho |]. split; [exact Hcur |]. split; [exact Hcr |].
  split; [|exact Hframe].
  intros i v id Hi Hid. split; [now apply Hcont | apply concat_matching_no_newline].
Qed.

Lemma artifacts_hold_matching_lines_witness :
  fs (event_loop env0 catalog4 2 "tle" (cycles 2) 0 w0).2 !! "tle/300.tle"
    = Some "1 00300U e2 00300 f"
  /\ fs (event_loop env0 catalog4 2 "tle" (cycles 2) 0 w0).2 !! "tle/400.tle" = Some "".
Proof.
  assert ((0 < 2)%nat) as Hb by lia.
  assert ((2 * 2 <= length (elems catalog4))%nat) as Hlen by (simpl; lia).
  assert (Z.of_nat (length (elems catalog4)) <= max_int) as Hmax
    by (unfold max_int; simpl; lia).
  assert (forall f s, write_denied env0 f s = false) as Hwr by reflexivity.
  assert (Forall (λ v, is_Some (numeric_id v)) (take (2 * 2) (elems catalog4))) as Hnum
    by (repeat constructor; vm_compute; eauto).
  assert (NoDup (map numeric_id (take (2 * 2) (elems catalog4)))) as Hnd
    by (apply (bool_decide_unpack _); vm_compute; exact I).
  assert (Forall (λ v, fs w0 !! artifact "tle" v = None) (take (2 * 2) (elems catalog4)))
    as Hfresh by (repeat constructor).
  assert (Forall (λ v, create_denied env0 (artifact "tle" v) = false)
            (take (2 * 2) (elems catalog4))) as Hallow by (repeat constructor).
  assert (forall k, (k < 2)%nat ->
            PostForm env0 (posts w0 + k) (Getenv env0 "SPACETRACKLOGINURL")
              (query_url env0 (join (map NORADID (window_rows catalog4 0 2 k))))
            = Some (resp0 k)) as Hnet
    by (intros [|[|k]] Hk; [reflexivity | reflexivity | lia]).
  assert (forall k, (k < 2)%nat ->
            Forall (λ line, is_Some (line_id line)) (response_lines (resp0 k))) as Hwf
    by (intros [|[|k]] Hk; [| | lia]; repeat constructor; vm_compute; eauto).
  destruct (artifacts_hold_matching_lines env0 "tle" catalog4 2 2 w0 resp0
              Hb Hlen Hmax Hwr Hnum Hnd Hfresh Hallow Hnet Hwf) as (_ & _ & _ & Hcont & _).
  split.
  - exact (proj1 (Hcont 2%nat (row "300") 300 eq_refl eq_refl)).
  - exact (proj1 (Hcont 3%nat (row "400") 400 eq_refl eq_refl)).
Defined.

(** * Further properties of the program *)

(** ** The claim step in general *)

Section ClaimGeneral.

Context (env : Env) (dir : string).

Lemma unclaimed_insert (m : gmap string string) (p x : string) (window : list SatcatRow) :
  p ∉ map (artifact dir) window ->
  unclaimed dir (<[p := x]> m) window = unclaimed dir m window
  /\ map (claim_event dir (<[p := x]> m)) window = map (claim_event dir m) window.
Proof.
  unfold unclaimed. induction window as [|v rest IH]; intros Hp; [split; reflexivity |].
  apply not_elem_of_cons in Hp as [Hne Hp]. destruct (IH Hp) as [IH1 IH2].
  assert (<[p := x]> m !! artifact dir v = m !! artifact dir v) as E
    by (apply lookup_insert_ne; congruence).
  split.
  - rewrite !filter_cons, E, IH1. reflexivity.
  - simpl. rewrite IH2. unfold claim_event at 1 3. now rewrite E.
Qed.

Lemma artifact_apart (v : SatcatRow) (rest : list SatcatRow) :
  NORADID v ∉ map NORADID rest -> artifact dir v ∉ map (artifact dir) rest.
Proof.
  intros Hv (u & E & Hu)%list_elem_of_fmap. apply Hv.
  apply tle_path_inj in E. rewrite E. apply list_elem_of_fmap. eauto.
Qed.

(** The claim step over rows with pairwise different identifiers, none of
    which is refused by the file system, the ones without an artifact
    being numeric: the rows without an artifact are claimed, in order, the
    others are skipped with a log line, and the sink map sends a number to
    the artifact of the last claimed row that carries it. *)
Lemma claim_loop_general (window : list SatcatRow) : forall (c : Claims) (w : World),
  NoDup (map NORADID window) ->
  Forall (λ v, create_denied env (artifact dir v) = false) window ->
  Forall (λ v, is_Some (numeric_id v)) (unclaimed dir (fs w) window) ->
  exists c' w',
    claim_loop env dir window c w = (Normal, c', w')
    /\ noradIDs c' = noradIDs c ++ map NORADID (unclaimed dir (fs w) window)
    /\ events w' = events w ++ map (claim_event dir (fs w)) window
    /\ (forall id, files c' !! id =
          match last_with_id id (unclaimed dir (fs w) window) with
          | Some v => Some (artifact dir v)
          | None => files c !! id
          end)
    /\ (forall v, v ∈ unclaimed dir (fs w) window -> fs w' !! artifact dir v = Some "")
    /\ (forall p, p ∉ map (artifact dir) (unclaimed dir (fs w) window) ->
          fs w' !! p = fs w !! p).
Proof.
  induction window as [|v rest IH]; intros c w Hnd Hallow Hnum.
  - exists c, w. simpl. rewrite !app_nil_r.
    repeat split; auto. intros u Hu. inversion Hu.
  - apply NoDup_cons in Hnd as [Hv Hnd].
    apply Forall_cons in Hallow as [Hav Hallow].
    pose proof (artifact_apart v rest Hv) as Hapart.
    unfold unclaimed in Hnum |- *. rewrite filter_cons in Hnum. rewrite !filter_cons.
    simpl claim_loop. simpl map at 2.
    unfold claim_event at 1.
    destruct (decide (fs w !! artifact dir v = None)) as [Hfree|Hthere].
    + apply Forall_cons in Hnum as [[n Hn] Hnum]. rewrite Hfree.
      unfold artifact in Hav, Hfree. rewrite (claim_fresh env dir v c w Hav Hfree).
      pose proof Hn as Hn'. unfold numeric_id in Hn'. rewrite Hn'.
      fold (artifact dir v).
      set (c1 := {| noradIDQuery := noradIDQuery c +:+ NORADID v +:+ ",";
                    noradIDs := noradIDs c ++ [NORADID v];
                    files := <[n := artifact dir v]> (files c) |}).
      set (w1 := emit (Created (artifact dir v))
                   {| fs := <[artifact dir v := ""]> (fs w); events := events w |}).
      destruct (unclaimed_insert (fs w) (artifact dir v) "" rest Hapart) as [EU EE].
      unfold unclaimed in EU.
      assert (Forall (λ u, is_Some (numeric_id u))
                (unclaimed dir (fs w1) rest)) as Hnum1.
      { unfold unclaimed. simpl. now rewrite EU. }
      destruct (IH c1 w1 Hnd Hallow Hnum1)
        as (c' & w' & Hrun & Hids & Hev & Hf & Hs1 & Hs2).
      unfold unclaimed in Hids, Hf, Hs1, Hs2. simpl fs in Hids, Hev, Hf, Hs1, Hs2.
      rewrite EU in Hids, Hf, Hs1, Hs2. rewrite EE in Hev.
      exists c', w'. split; [exact Hrun |]. split; [|split; [|split; [|split]]].
      * rewrite Hids. simpl. now rewrite <- app_assoc.
      * rewrite Hev. simpl. now rewrite <- app_assoc.
      * intros id. rewrite Hf. unfold last_with_id. rewrite filter_cons.
        destruct (decide (numeric_id v = Some id)) as [Hid|Hid].
        -- assert (n = id) as -> by congruence.
           destruct (filter (λ u, numeric_id u = Some id) _) as [|u us] eqn:E.
           ++ simpl. apply lookup_insert_eq.
           ++ rewrite last_cons_cons.
              destruct (last (u :: us)) eqn:El; [reflexivity |].
              apply last_None in El. discriminate.
        -- destruct (last _); [reflexivity |]. simpl.
           apply lookup_insert_ne. congruence.
      * intros u [->|Hu]%elem_of_cons; [|now apply Hs1].
        rewrite Hs2; [apply lookup_insert_eq |].
        intros Hin. apply Hapart.
        apply list_elem_of_fmap in Hin as (u & E & Hu).
        apply list_elem_of_filter in Hu as [_ Hu].
        apply list_elem_of_fmap. eauto.
      * intros p Hp. simpl in Hp. apply not_elem_of_cons in Hp as [Hne Hp].
        rewrite (Hs2 p Hp). simpl. apply lookup_insert_ne. congruence.
    + destruct (fs w !! artifact dir v) as [x|] eqn:Hx; [|congruence].
      unfold artifact in Hav, Hx.
      rewrite (claim_exists env dir v c w Hav (mk_is_Some _ _ Hx)).
      fold (artifact dir v).
      destruct (IH c (emit (LogSkip (artifact dir v)) w) Hnd Hallow Hnum)
        as (c' & w' & Hrun & Hids & Hev & Hf & Hs1 & Hs2).
      exists c', w'. split; [exact Hrun |]. split; [exact Hids |].
      split; [|auto]. rewrite Hev. simpl. now rewrite <- app_assoc.
Qed.

End ClaimGeneral.

Lemma join_Join (ids : list string) : join ids = Join ids comma.
Proof.
  induction ids as [|id [|id2 ids] IH]; [reflexivity | reflexivity |].
  change (join (id :: id2 :: ids)) with (id +:+ "," +:+ join (id2 :: ids)).
  change (Join (id :: id2 :: ids) comma) with (id +:+ String comma (Join (id2 :: ids) comma)).
  now rewrite IH.
Qed.

Lemma filter_post_none (evs : list event) :
  Forall (λ e, is_post e = false) evs -> filter is_post evs = [].
Proof.
  induction 1 as [|e evs He _ IH]; [reflexivity |].
  rewrite filter_cons. destruct (decide (is_post e)) as [Ht|_]; [|exact IH].
  rewrite He in Ht. destruct Ht.
Qed.

Lemma filter_post_claim_events (dir : string) (m : gmap string string)
  (window : list SatcatRow) :
  filter is_post (map (claim_event dir m) window) = [].
Proof.
  apply filter_post_none, Forall_forall. intros e (v & -> & _)%list_elem_of_fmap.
  unfold claim_event. now destruct (m !! artifact dir v).
Qed.

Lemma created_cons (e : event) (evs : list event) :
  created (e :: evs) = match is_created e with
                       | Some p => p :: created evs
                       | None => created evs
                       end.
Proof. reflexivity. Qed.

Lemma created_claim_events (dir : string) (m : gmap string string)
  (window : list SatcatRow) :
  created (map (claim_event dir m) window) = map (artifact dir) (unclaimed dir m window).
Proof.
  unfold unclaimed. induction window as [|v rest IH]; [reflexivity |].
  rewrite filter_cons. change (map (claim_event dir m) (v :: rest))
    with (claim_event dir m v :: map (claim_event dir m) rest).
  rewrite created_cons, IH. unfold claim_event.
  destruct (decide (m !! artifact dir v = None)) as [E|E].
  - now rewrite E.
  - destruct (m !! artifact dir v); [reflexivity | congruence].
Qed.

(** X1. A cycle over a window of rows with pairwise different
    identifiers, none refused by the file system, those without an
    artifact being numeric: the identifiers that survive are those of the
    rows without an artifact, in catalog order; every row leaves one entry
    in the trace, a creation or a conflict line; and the cycle posts
    nothing when no row survives, and otherwise one request, for the
    survivors joined by commas. *)
Theorem cycle_claims_rows_without_artifact (env : Env) (rows : Rows) (cursor batch : Z)
  (dir : string) (window : list SatcatRow) (w : World) :
  slice rows cursor (wrap_int (cursor + batch)) = Some window ->
  NoDup (map NORADID window) ->
  Forall (λ v, create_denied env (artifact dir v) = false) window ->
  Forall (λ v, is_Some (numeric_id v)) (unclaimed dir (fs w) window) ->
  let ids := map NORADID (unclaimed dir (fs w) window) in
  let w' := (FetchTLEsForSATCAT env rows cursor batch dir w).2 in
  claimed env rows cursor batch dir w = ids
  /\ new_events w w' =
     map (claim_event dir (fs w)) window
     ++ match ids with
        | [] => []
        | _ => [Posted (Getenv env "SPACETRACKLOGINURL") (query_url env (Join ids comma))]
        end
  /\ created (new_events w w') = map (artifact dir) (unclaimed dir (fs w) window).
Proof.
  intros Hs Hnd Hallow Hnum ids w'.
  destruct (claim_loop_general env dir window no_claims w Hnd Hallow Hnum)
    as (c' & w1 & Hrun & Hids & Hev & _).
  simpl in Hids. fold ids in Hids.
  assert (claimed env rows cursor batch dir w = ids) as Hcl.
  { unfold claimed, claim_phase. now rewrite Hs, Hrun. }
  assert (new_events w w' =
          map (claim_event dir (fs w)) window
          ++ match ids with
             | [] => []
             | _ => [Posted (Getenv env "SPACETRACKLOGINURL")
                       (query_url env (Join ids comma))]
             end) as Hnew.
  { apply new_events_app. unfold w'. rewrite FetchTLEsForSATCAT_spec.
    unfold claim_phase. rewrite Hs, Hrun, Hids.
    destruct ids as [|i is'] eqn:E; [simpl; now rewrite app_nil_r |].
    cbv zeta. rewrite <- join_Join.
    destruct (PostForm env (posts w1) _ _) as [resp|].
    - unfold demux_response.
      destruct (demux_reached env (files c') (removelast (Split resp nl))
                  (emit (Posted (Getenv env "SPACETRACKLOGINURL")
                           (query_url env (join (i :: is')))) w1))
        as (_ & _ & _ & _ & Hevd).
      rewrite Hevd. simpl. now rewrite Hev, app_assoc.
    - simpl. now rewrite Hev, app_assoc. }
  split; [exact Hcl |]. split; [exact Hnew |].
  rewrite Hnew, created_app, created_claim_events.
  destruct ids; unfold created; simpl; now rewrite app_nil_r.
Qed.

(** The rows of [catalog3] and a world in which only the artifact of 200
    exists. *)
Lemma cycle_claims_rows_without_artifact_witness :
  claimed env0 (catalog3 1) 0 3 "tle"
    {| fs := <["tle/200.tle" := "x"]> ∅; events := [] |} = ["100"; "300"].
Proof.
  assert (NoDup (map NORADID [row "100"; row "200"; row "300"])) as Hnd
    by (apply (bool_decide_unpack _); vm_compute; exact I).
  assert (Forall (λ v, create_denied env0 (artifact "tle" v) = false)
            [row "100"; row "200"; row "300"]) as Hallow by (repeat constructor).
  assert (unclaimed "tle" (<["tle/200.tle" := "x"]> ∅) [row "100"; row "200"; row "300"]
          = [row "100"; row "300"]) as HU by reflexivity.
  assert (Forall (λ v, is_Some (numeric_id v))
            (unclaimed "tle" (<["tle/200.tle" := "x"]> ∅)
               [row "100"; row "200"; row "300"])) as Hnum
    by (rewrite HU; repeat constructor; eexists; reflexivity).
  exact (proj1 (cycle_claims_rows_without_artifact env0 (catalog3 1) 0 3 "tle"
                  [row "100"; row "200"; row "300"]
                  {| fs := <["tle/200.tle" := "x"]> ∅; events := [] |}
                  eq_refl Hnd Hallow Hnum)).
Defined.

(** The claim step over rows that all have their artifact: nothing is
    claimed, nothing changes on disk. *)
Lemma claim_loop_all_exist (env : Env) (dir : string) (window : list SatcatRow)
  (c : Claims) (w : World) :
  Forall (λ v, is_Some (fs w !! artifact dir v)
               /\ create_denied env (artifact dir v) = false) window ->
  claim_loop env dir window c w
  = (Normal, c, {| fs := fs w;
                   events := events w ++ map (λ v, LogSkip (artifact dir v)) window |}).
Proof.
  revert w. induction window as [|v rest IH]; intros w H.
  - simpl. rewrite app_nil_r. now destruct w.
  - apply Forall_cons in H as [[Hex Hd] H]. simpl.
    unfold artifact in Hex, Hd. rewrite (claim_exists env dir v c w Hd Hex).
    rewrite IH by exact H. simpl. now rewrite <- app_assoc.
Qed.

Lemma cycle_idle (env : Env) (rows : Rows) (cursor batch : Z)
  (dir : string) (window : list SatcatRow) (w : World) :
  slice rows cursor (wrap_int (cursor + batch)) = Some window ->
  Forall (λ v, is_Some (fs w !! artifact dir v)
               /\ create_denied env (artifact dir v) = false) window ->
  FetchTLEsForSATCAT env rows cursor batch dir w
  = (Normal, {| fs := fs w;
                events := events w ++ map (λ v, LogSkip (artifact dir v)) window |}).
Proof.
  intros Hs H. rewrite FetchTLEsForSATCAT_spec. unfold claim_phase.
  now rewrite Hs, (claim_loop_all_exist env dir window no_claims w H).
Qed.

(** X2. A cycle over a window whose artifacts all exist (a restart over
    rows already fetched, or the same window run again) returns normally,
    posts no request and changes no file: it only logs one conflict per
    row, in order. *)
Theorem cycle_over_claimed_rows_is_idle (env : Env) (rows : Rows) (cursor batch : Z)
  (dir : string) (window : list SatcatRow) (w : World) :
  slice rows cursor (wrap_int (cursor + batch)) = Some window ->
  Forall (λ v, is_Some (fs w !! artifact dir v)
               /\ create_denied env (artifact dir v) = false) window ->
  FetchTLEsForSATCAT env rows cursor batch dir w
  = (Normal, {| fs := fs w;
                events := events w ++ map (λ v, LogSkip (artifact dir v)) window |}).
Proof. apply cycle_idle. Qed.

Lemma cycle_over_claimed_rows_is_idle_witness :
  FetchTLEsForSATCAT env0 (catalog3 1) 0 2 "tle" w_done
  = (Normal, {| fs := fs w_done;
                events := [LogSkip "tle/100.tle"; LogSkip "tle/200.tle"] |}).
Proof.
  apply (cycle_over_claimed_rows_is_idle env0 (catalog3 1) 0 2 "tle"
           [row "100"; row "200"] w_done); [reflexivity |].
  repeat constructor; vm_compute; eauto.
Defined.

Lemma unclaimed_all (dir : string) (m : gmap string string) (window : list SatcatRow) :
  Forall (λ v, m !! artifact dir v = None) window -> unclaimed dir m window = window.
Proof.
  unfold unclaimed. induction 1 as [|v rest Hv _ IH]; [reflexivity |].
  rewrite filter_cons, decide_True by exact Hv. now rewrite IH.
Qed.

(** X3. When the request of a cycle fails, the cycle panics after its
    claim step: every row of the window (rows with pairwise different
    numeric identifiers, no artifact yet) is left with an empty artifact.
    The same cycle run again then finds them all claimed: it returns
    without a request and without touching a file, so their records are
    not fetched. *)
Theorem failed_request_leaves_empty_artifacts (env : Env) (rows : Rows) (cursor batch : Z)
  (dir : string) (window : list SatcatRow) (w : World) :
  slice rows cursor (wrap_int (cursor + batch)) = Some window ->
  window ≠ [] ->
  NoDup (map NORADID window) ->
  Forall (λ v, create_denied env (artifact dir v) = false) window ->
  Forall (λ v, fs w !! artifact dir v = None) window ->
  Forall (λ v, is_Some (numeric_id v)) window ->
  PostForm env (posts w) (Getenv env "SPACETRACKLOGINURL")
    (query_url env (Join (map NORADID window) comma)) = None ->
  let r := FetchTLEsForSATCAT env rows cursor batch dir w in
  let r2 := FetchTLEsForSATCAT env rows cursor batch dir r.2 in
  r.1 = Panic
  /\ (forall v, v ∈ window -> fs r.2 !! artifact dir v = Some "")
  /\ r2.1 = Normal
  /\ fs r2.2 = fs r.2
  /\ filter is_post (new_events r.2 r2.2) = [].
Proof.
  intros Hs Hne Hnd Hallow Hfresh Hnum Hpost.
  pose proof (unclaimed_all dir (fs w) window Hfresh) as HU.
  assert (Forall (λ v, is_Some (numeric_id v)) (unclaimed dir (fs w) window)) as Hnum'
    by now rewrite HU.
  destruct (claim_loop_general env dir window no_claims w Hnd Hallow Hnum')
    as (c' & w1 & Hrun & Hids & Hev & _ & Hs1 & _).
  rewrite HU in Hids, Hs1. simpl in Hids.
  assert (posts w1 = posts w) as Hposts.
  { rewrite (posts_app w w1 _ Hev), filter_post_claim_events. simpl. lia. }
  assert (FetchTLEsForSATCAT env rows cursor batch dir w
          = (Panic, emit (Posted (Getenv env "SPACETRACKLOGINURL")
                            (query_url env (Join (map NORADID window) comma))) w1)) as HF.
  { rewrite FetchTLEsForSATCAT_spec. unfold claim_phase. rewrite Hs, Hrun, Hids.
    destruct (map NORADID window) as [|i is'] eqn:E.
    - destruct window; [congruence | discriminate].
    - cbv zeta. rewrite join_Join, Hposts, Hpost. reflexivity. }
  cbv zeta. rewrite HF. simpl.
  split; [reflexivity |]. split; [exact Hs1 |].
  rewrite (cycle_idle env rows cursor batch dir window); [simpl |exact Hs |].
  - split; [reflexivity |]. split; [reflexivity |].
    unfold new_events. simpl. rewrite drop_app_length.
    apply filter_post_none, Forall_forall.
    now intros e (v & -> & _)%list_elem_of_fmap.
  - apply Forall_forall. intros v Hv. simpl. split.
    + rewrite (Hs1 v Hv). eauto.
    + rewrite Forall_forall in Hallow. now apply Hallow.
Qed.

Lemma failed_request_leaves_empty_artifacts_witness :
  (FetchTLEsForSATCAT env_offline catalog2 0 2 "tle" w0).1 = Panic
  /\ (FetchTLEsForSATCAT env_offline catalog2 0 2 "tle"
        (FetchTLEsForSATCAT env_offline catalog2 0 2 "tle" w0).2).1 = Normal.
Proof.
  assert ([row "100"; row "200"] ≠ []) as Hne by discriminate.
  assert (NoDup (map NORADID [row "100"; row "200"])) as Hnd
    by (apply (bool_decide_unpack _); vm_compute; exact I).
  assert (Forall (λ v, create_denied env_offline (artifact "tle" v) = false)
            [row "100"; row "200"]) as Hallow by (repeat constructor).
  assert (Forall (λ v, fs w0 !! artifact "tle" v = None) [row "100"; row "200"]) as Hfresh
    by (repeat constructor).
  assert (Forall (λ v, is_Some (numeric_id v)) [row "100"; row "200"]) as Hnum
    by (repeat constructor; vm_compute; eauto).
  pose proof (failed_request_leaves_empty_artifacts env_offline catalog2 0 2 "tle"
                [row "100"; row "200"] w0 eq_refl Hne Hnd Hallow Hfresh Hnum eq_refl) as H.
  cbv zeta in H. destruct H as (H1 & _ & H2 & _). split; [exact H1 | exact H2].
Defined.





(** X5. A row whose identifier is not a number ends the process, but
    only after its artifact has been created: the cycle exits through
    [log.Fatal] without a request, the empty artifact stays, and from then
    on a claim attempt on that row is an ordinary conflict, logged and
    skipped. *)
Theorem nonnumeric_identifier_is_fatal_once (env : Env) (rows : Rows) (cursor batch : Z)
  (dir : string) (pre rest : list SatcatRow) (v : SatcatRow) (w : World) :
  slice rows cursor (wrap_int (cursor + batch)) = Some (pre ++ v :: rest) ->
  (claim_loop env dir pre no_claims w).1.1 = Normal ->
  create_denied env (artifact dir v) = false ->
  fs (claim_loop env dir pre no_claims w).2 !! artifact dir v = None ->
  numeric_id v = None ->
  let r := FetchTLEsForSATCAT env rows cursor batch dir w in
  r.1 = Exit
  /\ fs r.2 = <[artifact dir v := ""]> (fs (claim_loop env dir pre no_claims w).2)
  /\ filter is_post (new_events w r.2) = []
  /\ (forall c, claim env dir v c r.2 = (Normal, c, emit (LogSkip (artifact dir v)) r.2)).
Proof.
  intros Hs Hpre Hd Hfree Hnum.
  destruct (claim_loop_invariant env dir pre no_claims w eq_refl) as (_ & (evs & Hev & Hnp) & _).
  assert (FetchTLEsForSATCAT env rows cursor batch dir w
          = (Exit, emit (Created (artifact dir v))
                     {| fs := <[artifact dir v := ""]> (fs (claim_loop env dir pre no_claims w).2);
                        events := events (claim_loop env dir pre no_claims w).2 |})) as HF.
  { rewrite FetchTLEsForSATCAT_spec. unfold claim_phase. rewrite Hs, claim_loop_app.
    destruct (claim_loop env dir pre no_claims w) as [[o c1] w1]. simpl in *. subst o.
    unfold artifact in Hd, Hfree. rewrite (claim_fresh env dir v c1 w1 Hd Hfree).
    unfold numeric_id in Hnum. now rewrite Hnum. }
  cbv zeta. rewrite HF. simpl. split; [reflexivity |]. split; [reflexivity |]. split.
  - unfold new_events. simpl. rewrite Hev, <- app_assoc, drop_app_length, filter_app.
    rewrite (filter_post_none evs Hnp). reflexivity.
  - intros c. apply claim_exists; [exact Hd |]. simpl.
    unfold artifact. rewrite lookup_insert_eq. eauto.
Qed.

Lemma nonnumeric_identifier_is_fatal_once_witness :
  (FetchTLEsForSATCAT env0 catalog_abc 0 2 "tle" w0).1 = Exit
  /\ fs (FetchTLEsForSATCAT env0 catalog_abc 0 2 "tle" w0).2 = <["tle/abc.tle" := ""]> ∅.
Proof.
  pose proof (nonnumeric_identifier_is_fatal_once env0 catalog_abc 0 2 "tle" [] [row "100"]
                (row "abc") w0 eq_refl eq_refl eq_refl eq_refl eq_refl) as H.
  cbv zeta in H. destruct H as (H1 & H2 & _). split; [exact H1 | exact H2].
Defined.




(** ** The query and the identifier field *)

Lemma Split_sep (a t : string) (sep : ascii) :
  has_byte sep a = false -> Split (a +:+ String sep t) sep = a :: Split t sep.
Proof.
  induction a as [|c a IH]; intros Ha.
  - rewrite append_nil_l. simpl. now rewrite Ascii.eqb_refl.
  - simpl in Ha. apply orb_false_iff in Ha as [Hc Ha].
    rewrite append_cons. simpl. now rewrite Hc, (IH Ha).
Qed.

Lemma Join_Split (s : string) (sep : ascii) : Join (Split s sep) sep = s.
Proof.
  induction s as [|c s IH]; [reflexivity |]. simpl.
  pose proof (Split_nonempty s sep) as Hne.
  destruct (Ascii.eqb_spec c sep) as [->|_].
  - destruct (Split s sep) as [|x xs]; [congruence |].
    change (Join ("" :: x :: xs) sep) with ("" +:+ String sep (Join (x :: xs) sep)).
    now rewrite IH.
  - destruct (Split s sep) as [|x xs]; [congruence |].
    destruct xs as [|y ys]; simpl in *; [now rewrite IH |].
    now rewrite <- IH.
Qed.

Lemma Split_Join (l : list string) (sep : ascii) :
  l ≠ [] -> Forall (λ a, has_byte sep a = false) l -> Split (Join l sep) sep = l.
Proof.
  intros Hne H. induction H as [|a l Ha Hl IH]; [congruence |].
  destruct l as [|b l]; [now apply Split_no_sep |].
  change (Join (a :: b :: l) sep) with (a +:+ String sep (Join (b :: l) sep)).
  rewrite (Split_sep a _ sep Ha), IH; [reflexivity | discriminate].
Qed.

(** X7. The query a cycle sends can be read back: cutting it at the
    commas gives the identifiers that survived the claim step, in order
    (none of them containing a comma), and joining these gives the query
    again. *)
Theorem query_lists_the_claimed_identifiers (env : Env) (dir : string)
  (window : list SatcatRow) (w : World) :
  let c := (claim_loop env dir window no_claims w).1.2 in
  noradIDs c ≠ [] ->
  Forall (λ id, has_byte comma id = false) (noradIDs c) ->
  exists q,
    drop_last (noradIDQuery c) = Some q
    /\ Split q comma = noradIDs c
    /\ q = Join (noradIDs c) comma.
Proof.
  intros c Hne Hcomma.
  destruct (claim_loop_invariant env dir window no_claims w eq_refl) as (Hq & _ & _).
  fold c in Hq. exists (Join (noradIDs c) comma).
  rewrite Hq, (drop_last_with_commas _ Hne), join_Join.
  split; [reflexivity |]. split; [now apply Split_Join | reflexivity].
Qed.

Lemma query_lists_the_claimed_identifiers_witness :
  exists q,
    drop_last (noradIDQuery (claim_loop env0 "tle" (elems catalog2) no_claims w0).1.2) = Some q
    /\ Split q comma = ["100"; "200"]
    /\ q = "100,200".
Proof.
  apply (query_lists_the_claimed_identifiers env0 "tle" (elems catalog2) w0).
  - discriminate.
  - repeat constructor.
Defined.

Lemma digit_range (c : ascii) (d : Z) : digit c = Some d -> 0 <= d <= 9.
Proof.
  unfold digit. destruct (Z.leb_spec 48 (Z.of_nat (nat_of_ascii c))); [|discriminate].
  destruct (Z.leb_spec (Z.of_nat (nat_of_ascii c)) 57); [|discriminate].
  intros [= <-]. lia.
Qed.

Lemma digits_bound (s : string) : forall acc n,
  0 <= acc -> digits acc s = Some n ->
  acc * 10 ^ Z.of_nat (String.length s) <= n < (acc + 1) * 10 ^ Z.of_nat (String.length s).
Proof.
  induction s as [|c s IH]; intros acc n Hacc H.
  - simpl in *. injection H as <-. lia.
  - simpl in H. destruct (digit c) as [d|] eqn:Hd; [|discriminate].
    apply digit_range in Hd.
    specialize (IH (acc * 10 + d) n ltac:(lia) H).
    change (String.length (String c s)) with (S (String.length s)).
    rewrite Nat2Z.inj_succ, Z.pow_succ_r by lia.
    assert (0 < 10 ^ Z.of_nat (String.length s)) by (apply Z.pow_pos_nonneg; lia).
    nia.
Qed.

Lemma Atoi_short (s : string) (v : Z) :
  (String.length s <= 5)%nat -> Atoi s = Some v -> -9999 <= v <= 99999.
Proof.
  intros Hlen H. unfold Atoi in H. destruct s as [|c s]; [discriminate |].
  simpl in Hlen.
  assert (forall body n, digits 0 body = Some n ->
            0 <= n < 10 ^ Z.of_nat (String.length body)) as Hb.
  { intros body n Hn. pose proof (digits_bound body 0 n ltac:(lia) Hn). lia. }
  assert (forall k, (k <= 5)%nat -> 10 ^ Z.of_nat k <= 100000) as Hpow5.
  { intros k Hk. change 100000 with (10 ^ Z.of_nat 5).
    apply Z.pow_le_mono_r; lia. }
  assert (forall k, (k <= 4)%nat -> 10 ^ Z.of_nat k <= 10000) as Hpow4.
  { intros k Hk. change 10000 with (10 ^ Z.of_nat 4).
    apply Z.pow_le_mono_r; lia. }
  cbv zeta in H.
  destruct (Ascii.eqb c "-") eqn:Hminus; cbn [orb] in H.
  - destruct s as [|c' s']; [discriminate |].
    destruct (digits 0 (String c' s')) as [n|] eqn:Hn; [|discriminate].
    destruct (is_intb (- n)); [|discriminate]. injection H as <-.
    pose proof (Hb _ _ Hn).
    pose proof (Hpow4 (String.length (String c' s')) ltac:(simpl in *; lia)). lia.
  - destruct (Ascii.eqb c "+") eqn:Hplus.
    + destruct s as [|c' s']; [discriminate |].
      destruct (digits 0 (String c' s')) as [n|] eqn:Hn; [|discriminate].
      destruct (is_intb n); [|discriminate]. injection H as <-.
      pose proof (Hb _ _ Hn).
      pose proof (Hpow4 (String.length (String c' s')) ltac:(simpl in *; lia)). lia.
    + destruct (digits 0 (String c s)) as [n|] eqn:Hn; [|discriminate].
      destruct (is_intb n); [|discriminate]. injection H as <-.
      pose proof (Hb _ _ Hn).
      pose proof (Hpow5 (String.length (String c s)) ltac:(simpl; lia)). lia.
Qed.

Lemma length_TrimLeft (s : string) (c : ascii) :
  (String.length (TrimLeft s c) <= String.length s)%nat.
Proof.
  induction s as [|x s IH]; simpl; [lia |].
  destruct (Ascii.eqb x c); simpl; lia.
Qed.

Lemma length_TrimRight (s : string) (c : ascii) :
  (String.length (TrimRight s c) <= String.length s)%nat.
Proof.
  induction s as [|x s IH]; simpl; [lia |].
  destruct (TrimRight s c); [destruct (Ascii.eqb x c) |]; simpl in *; lia.
Qed.

Lemma length_substring (n m : nat) (s : string) :
  (String.length (substring n m s) <= m)%nat.
Proof.
  revert n m. induction s as [|x s IH]; intros [|n] [|m]; simpl; try lia.
  - specialize (IH 0%nat m). lia.
  - apply IH.
  - apply IH.
Qed.

Lemma line_id_range (line : string) (id : Z) :
  line_id line = Some id -> -9999 <= id <= 99999.
Proof.
  unfold line_id, str_slice.
  destruct ((2 <=? 7)%nat && (7 <=? String.length line)%nat); [|discriminate].
  apply Atoi_short. unfold Trim.
  pose proof (length_TrimRight (TrimLeft (substring 2 (7 - 2) line) space) space).
  pose proof (length_TrimLeft (substring 2 (7 - 2) line) space).
  pose proof (length_substring 2 (7 - 2) line). simpl in *. lia.
Qed.

(** X8. The identifier read from a response line lies between -9999 and
    99999, the field being five bytes wide.  A sink claimed for an
    identifier outside this range, and for no other, therefore never
    receives a byte, whatever the response. *)
Theorem identifier_field_is_five_bytes_wide (env : Env) (files : gmap Z string)
  (resp : string) (w : World) (id : Z) (p : string) :
  (forall line id', line_id line = Some id' -> -9999 <= id' <= 99999)
  /\ (files !! id = Some p ->
      (forall id', files !! id' = Some p -> id' = id) ->
      ~ (-9999 <= id <= 99999) ->
      content (fs (demux_response env files resp w).2) p = content (fs w) p).
Proof.
  split; [apply line_id_range |].
  intros Hid Honly Hout. unfold demux_response.
  destruct (demux_reached env files (removelast (Split resp nl)) w)
    as (reached & _ & _ & Hc & _).
  rewrite Hc, fragments_none; [apply append_nil_r |].
  intros line _. unfold sink_of.
  destruct (line_id line) as [id'|] eqn:Hl; [|discriminate].
  intros Hf. apply Hout. rewrite <- (Honly id' Hf). now apply line_id_range in Hl.
Qed.

Lemma identifier_field_is_five_bytes_wide_witness :
  content (fs (demux_response env0 (<[100000 := "tle/100000.tle"]> ∅)
                 (ln "1 100000U") w0).2) "tle/100000.tle" = "".
Proof.
  apply (proj2 (identifier_field_is_five_bytes_wide env0 (<[100000 := "tle/100000.tle"]> ∅)
                  (ln "1 100000U") w0 100000 "tle/100000.tle")).
  - reflexivity.
  - intros id' H. destruct (decide (id' = 100000)) as [->|Hne]; [reflexivity |].
    rewrite lookup_insert_ne in H by congruence. rewrite lookup_empty in H. discriminate.
  - lia.
Defined.

Lemma digit_not (c x : ascii) : digit x = None -> is_Some (digit c) -> Ascii.eqb c x = false.
Proof.
  intros Hx [d Hd]. destruct (Ascii.eqb_spec c x) as [->|]; [congruence | reflexivity].
Qed.

Lemma TrimRight_cons (c cut : ascii) (s : string) :
  Ascii.eqb c cut = false -> TrimRight (String c s) cut = String c (TrimRight s cut).
Proof. intros H. simpl. rewrite H. now destruct (TrimRight s cut). Qed.

Lemma Atoi_Trim_space (f : string) :
  Atoi (Trim (String space f) space) = Atoi (Trim f space).
Proof. reflexivity. Qed.

Lemma Atoi_Trim_zero (f : string) :
  starts_with_digit f = true ->
  Atoi (Trim (String "0" f) space) = Atoi (Trim f space).
Proof.
  destruct f as [|c t]; [discriminate |]. simpl starts_with_digit.
  destruct (digit c) as [d|] eqn:Hd; [intros _ | discriminate].
  assert (is_Some (digit c)) as Hc by eauto.
  pose proof (digit_not c space eq_refl Hc) as Hsp.
  pose proof (digit_not c "-" eq_refl Hc) as Hminus.
  pose proof (digit_not c "+" eq_refl Hc) as Hplus.
  unfold Trim. change (TrimLeft (String "0" (String c t)) space) with (String "0" (String c t)).
  assert (TrimLeft (String c t) space = String c t) as -> by (simpl; now rewrite Hsp).
  rewrite (TrimRight_cons "0" space _ eq_refl), (TrimRight_cons c space t Hsp).
  unfold Atoi. cbv zeta. rewrite Hminus, Hplus.
  change (Ascii.eqb "0" "-") with false. change (Ascii.eqb "0" "+") with false.
  cbn [orb]. reflexivity.
Qed.

Lemma pad_starts_with_digit (k : nat) (d : string) :
  starts_with_digit d = true -> starts_with_digit (pad "0" k d) = true.
Proof. destruct k; [auto | reflexivity]. Qed.

Lemma length_pad (c : ascii) (k : nat) (d : string) :
  String.length (pad c k d) = (k + String.length d)%nat.
Proof. induction k as [|k IH]; simpl; [reflexivity | now rewrite IH]. Qed.

Lemma substring_prefix (f tail : string) :
  substring 0 (String.length f) (f +:+ tail) = f.
Proof.
  induction f as [|c f IH]; [now destruct tail |].
  rewrite append_cons. simpl. now rewrite IH.
Qed.

(** X9. Identifiers are compared as numbers: a line whose field pads
    the digits with zeros and one that pads them with spaces carry the
    same identifier, the one the digits alone give. *)
Theorem padding_does_not_change_the_identifier (a b : ascii) (k : nat) (d tail : string) :
  starts_with_digit d = true ->
  (k + String.length d = 5)%nat ->
  line_id (String a (String b (pad "0" k d +:+ tail))) = Atoi (Trim d space)
  /\ line_id (String a (String b (pad space k d +:+ tail))) = Atoi (Trim d space).
Proof.
  intros Hd Hlen.
  assert (forall c, line_id (String a (String b (pad c k d +:+ tail)))
                    = Atoi (Trim (pad c k d) space)) as Hfield.
  { intros c. unfold line_id. rewrite str_slice_long.
    - change (substring 2 5 (String a (String b (pad c k d +:+ tail))))
        with (substring 0 5 (pad c k d +:+ tail)).
      replace 5%nat with (String.length (pad c k d)) by (rewrite length_pad; exact Hlen).
      now rewrite substring_prefix.
    - simpl. rewrite length_append, length_pad. lia. }
  rewrite !Hfield. clear Hfield Hlen. split.
  - induction k as [|k IH]; [reflexivity |]. simpl pad.
    rewrite Atoi_Trim_zero; [exact IH | now apply pad_starts_with_digit].
  - induction k as [|k IH]; [reflexivity |]. simpl pad. now rewrite Atoi_Trim_space.
Qed.

Lemma padding_does_not_change_the_identifier_witness :
  line_id "1 00025U 98067A" = Some 25 /\ line_id "1    25U 98067A" = Some 25.
Proof.
  apply (padding_does_not_change_the_identifier "1" " " 3 "25" "U 98067A");
    reflexivity.
Defined.

(** ** Single fetches and the catalog download *)

Lemma WriteFile_frame (env : Env) (name data p : string) (w : World) :
  p ≠ name -> fs (WriteFile env name data w).2 !! p = fs w !! p.
Proof.
  intros Hne. unfold WriteFile. destruct (create_denied env name); [reflexivity |].
  destruct (write_denied env name data); destruct (fs w !! name); simpl;
    rewrite ?lookup_insert_ne by congruence; reflexivity.
Qed.

Lemma WriteFile_ok (env : Env) (name data : string) (w : World) :
  create_denied env name = false -> write_denied env name data = false ->
  (WriteFile env name data w).1 = true
  /\ fs (WriteFile env name data w).2 !! name = Some data
  /\ filter is_post (events (WriteFile env name data w).2) = filter is_post (events w).
Proof.
  intros Hc Hw. unfold WriteFile. rewrite Hc, Hw.
  destruct (fs w !! name); simpl; rewrite lookup_insert_eq; repeat split.
  rewrite filter_app. apply app_nil_r.
Qed.

Lemma grows_WriteFile (env : Env) (name data : string) (w : World) :
  grows w (WriteFile env name data w).2.
Proof.
  unfold WriteFile. destruct (create_denied env name); [apply grows_refl |].
  assert (forall (m : gmap string string) (x : string),
            (forall p, is_Some (fs w !! p) -> is_Some (m !! p)) ->
            forall p, is_Some (fs w !! p) -> is_Some (<[name := x]> m !! p)) as Hins.
  { intros m x Hm p Hp. rewrite lookup_insert. destruct (decide (name = p)); eauto. }
  destruct (fs w !! name) eqn:E.
  - assert (grows w {| fs := <[name := ""]> (fs w); events := events w |}) as H1.
    { exists []. simpl. rewrite app_nil_r. split; [reflexivity |]. split; [constructor |].
      split; [intros p Hp; inversion Hp | apply Hins; auto]. }
    destruct (write_denied env name data); [exact H1 |].
    eapply grows_trans; [exact H1 |].
    exists []. simpl. rewrite app_nil_r. split; [reflexivity |]. split; [constructor |].
    split; [intros p Hp; inversion Hp |].
    intros p Hp. rewrite lookup_insert. destruct (decide (name = p)); eauto.
  - assert (grows w (emit (Created name)
                       {| fs := <[name := ""]> (fs w); events := events w |})) as H1.
    { exists [Created name]. simpl. split; [reflexivity |]. split; [apply NoDup_singleton |].
      split; [|apply Hins; auto].
      intros p ->%list_elem_of_singleton. rewrite lookup_insert_eq. eauto. }
    destruct (write_denied env name data); [exact H1 |].
    eapply grows_trans; [exact H1 |].
    exists []. simpl. rewrite app_nil_r. split; [reflexivity |]. split; [constructor |].
    split; [intros p Hp; inversion Hp |].
    intros p Hp. rewrite lookup_insert. destruct (decide (name = p)); eauto.
Qed.

(** The claim step reads the file system at the artifacts of its rows
    only. *)
Lemma claim_loop_agree (env : Env) (dir : string) (same : string -> Prop)
  (window : list SatcatRow) : forall (c : Claims) (w w' : World),
  (forall v, v ∈ window -> same (artifact dir v)) ->
  (forall p, same p -> fs w !! p = fs w' !! p) ->
  (claim_loop env dir window c w).1 = (claim_loop env dir window c w').1
  /\ (forall p, same p ->
        fs (claim_loop env dir window c w).2 !! p = fs (claim_loop env dir window c w').2 !! p).
Proof.
  induction window as [|v rest IH]; intros c w w' Hsame Hagree; [split; auto |].
  simpl.
  assert ((claim env dir v c w).1 = (claim env dir v c w').1
          /\ (forall p, same p ->
                fs (claim env dir v c w).2 !! p = fs (claim env dir v c w').2 !! p)) as Hstep.
  { unfold claim, OpenFile. destruct (create_denied env _); [split; auto |].
    rewrite <- (Hagree (tle_path dir (NORADID v))) by (apply Hsame; left).
    destruct (fs w !! tle_path dir (NORADID v)); [split; auto |].
    destruct (Atoi (NORADID v)); simpl; (split; [reflexivity |]);
      intros p Hp; rewrite !lookup_insert; destruct (decide (_ = p)); auto. }
  destruct Hstep as [H1 H2].
  destruct (claim env dir v c w) as [[o c1] w1], (claim env dir v c w') as [[o' c1'] w1'].
  simpl in *. injection H1 as -> ->.
  destruct o'; simpl; auto.
  apply IH; [|exact H2]. intros u Hu. apply Hsame. now right.
Qed.

Lemma claimed_agree (env : Env) (rows : Rows) (cursor batch : Z) (dir : string)
  (same : string -> Prop) (w w' : World) :
  (forall id, same (tle_path dir id)) ->
  (forall p, same p -> fs w !! p = fs w' !! p) ->
  claimed env rows cursor batch dir w = claimed env rows cursor batch dir w'.
Proof.
  intros Hsame Hagree. unfold claimed, claim_phase.
  destruct (slice rows cursor (wrap_int (cursor + batch))) as [window|]; [|reflexivity].
  destruct (claim_loop_agree env dir same window no_claims w w') as [H _];
    [intros; apply Hsame | exact Hagree |].
  destruct (claim_loop env dir window no_claims w) as [[o c] w1],
           (claim_loop env dir window no_claims w') as [[o' c'] w1'].
  simpl in H. now injection H as _ ->.
Qed.

(** X10. A single fetch that goes through stores the response as it
    came, line breaks included, in the artifact of the identifier,
    replacing what the artifact held, and touches no other file; it posts
    the request a batch of this one identifier would post; and from then
    on no cycle of the scheduler claims the identifier. *)
Theorem FetchTLEs_stores_the_response (env : Env) (id dir : string) (w : World)
  (resp : string) :
  PostForm env (posts w) (Getenv env "SPACETRACKLOGINURL") (query_url env id) = Some resp ->
  create_denied env (tle_path dir id) = false ->
  write_denied env (tle_path dir id) resp = false ->
  let r := FetchTLEs env id dir w in
  r.1 = Normal
  /\ fs r.2 !! tle_path dir id = Some resp
  /\ (forall p, p ≠ tle_path dir id -> fs r.2 !! p = fs w !! p)
  /\ filter is_post (new_events w r.2)
     = [Posted (Getenv env "SPACETRACKLOGINURL") (query_url env (Join [id] comma))]
  /\ (forall rows batch signals cursor cursor',
        id ∉ claimed env rows cursor' batch dir
               (event_loop env rows batch dir signals cursor r.2).2).
Proof.
  intros Hpost Hc Hw. cbv zeta. unfold FetchTLEs, STPOST.
  fold (query_url env id). fold (tle_path dir id). rewrite Hpost.
  set (w1 := emit (Posted (Getenv env "SPACETRACKLOGINURL") (query_url env id)) w).
  destruct (WriteFile_ok env (tle_path dir id) resp w1 Hc Hw) as (Hok & Hfile & Hposts).
  pose proof (grows_WriteFile env (tle_path dir id) resp w1) as Hg.
  pose proof (fun p => WriteFile_frame env (tle_path dir id) resp p w1) as Hframe.
  destruct (WriteFile env (tle_path dir id) resp w1) as [ok w2]. simpl in *. subst ok.
  simpl. split; [reflexivity |]. split; [exact Hfile |]. split; [exact Hframe |]. split.
  - destruct Hg as (evs & Hev & _).
    assert (filter is_post evs = []) as Hnil.
    { rewrite Hev, filter_app in Hposts. apply (f_equal length) in Hposts.
      rewrite length_app in Hposts. destruct (filter is_post evs); [reflexivity |].
      simpl in Hposts. lia. }
    simpl in Hev.
    rewrite (new_events_app w w2 ([Posted (Getenv env "SPACETRACKLOGINURL")
                                     (query_url env id)] ++ evs))
      by (now rewrite Hev, <- app_assoc).
    rewrite filter_app, Hnil. reflexivity.
  - intros rows batch signals cursor cursor'. apply existing_not_claimed.
    pose proof (grows_event_loop env rows batch dir signals cursor w2) as (_ & _ & _ & _ & Hkeep).
    apply Hkeep. rewrite Hfile. eauto.
Qed.

Lemma FetchTLEs_stores_the_response_witness :
  fs (FetchTLEs env0 "100" "tle" w_done).2 !! "tle/100.tle" = Some resp_100_200.
Proof.
  pose proof (FetchTLEs_stores_the_response env0 "100" "tle" w_done resp_100_200
                eq_refl eq_refl eq_refl) as H.
  cbv zeta in H. exact (proj1 (proj2 H)).
Defined.

(** X11. A single fetch whose request fails, or whose artifact cannot
    be created, panics and leaves every file as it was: unlike a failed
    batch, it does not mark the identifier as fetched, and what a later
    cycle claims is what it would have claimed before. *)
Theorem failed_FetchTLEs_changes_no_file (env : Env) (id dir : string) (w : World) :
  PostForm env (posts w) (Getenv env "SPACETRACKLOGINURL") (query_url env id) = None
  \/ create_denied env (tle_path dir id) = true ->
  let r := FetchTLEs env id dir w in
  r.1 = Panic
  /\ fs r.2 = fs w
  /\ (forall rows cursor batch,
        claimed env rows cursor batch dir r.2 = claimed env rows cursor batch dir w).
Proof.
  intros H. cbv zeta.
  assert ((FetchTLEs env id dir w).1 = Panic /\ fs (FetchTLEs env id dir w).2 = fs w) as [Ho Hfs].
  { unfold FetchTLEs, STPOST. fold (query_url env id). fold (tle_path dir id).
    destruct (PostForm env (posts w) _ (query_url env id)) as [resp|] eqn:Hp.
    - destruct H as [H|H]; [discriminate |]. unfold WriteFile. rewrite H. split; reflexivity.
    - split; reflexivity. }
  split; [exact Ho |]. split; [exact Hfs |].
  intros rows cursor batch. apply (claimed_agree env rows cursor batch dir (λ _, True)); [auto |].
  intros p _. now rewrite Hfs.
Qed.

Lemma failed_FetchTLEs_changes_no_file_witness :
  (FetchTLEs env_offline "100" "tle" w0).1 = Panic
  /\ claimed env_offline catalog2 0 2 "tle" (FetchTLEs env_offline "100" "tle" w0).2
     = claimed env_offline catalog2 0 2 "tle" w0.
Proof.
  pose proof (failed_FetchTLEs_changes_no_file env_offline "100" "tle" w0 (or_introl eq_refl))
    as H.
  cbv zeta in H. destruct H as (H1 & _ & H3). split; [exact H1 | apply H3].
Defined.

Lemma append_suffix_eq (a b t t' : string) :
  String.length t = String.length t' -> a +:+ t = b +:+ t' -> t = t'.
Proof.
  intros Hlen. revert b. induction a as [|x a IH]; intros [|y b] H.
  - exact H.
  - apply (f_equal String.length) in H. rewrite append_nil_l, length_append in H.
    simpl in H. lia.
  - apply (f_equal String.length) in H. rewrite append_nil_l, length_append in H.
    simpl in H. lia.
  - rewrite !append_cons in H. injection H as _ H. now apply (IH b).
Qed.

Lemma tle_path_not_satcat (dir id : string) : tle_path dir id ≠ "satcat.csv".
Proof.
  unfold tle_path. intros H.
  rewrite <- !append_assoc in H.
  change "satcat.csv" with ("satcat" +:+ ".csv") in H.
  apply append_suffix_eq in H; [discriminate | reflexivity].
Qed.

(** X12. The catalog download writes to [satcat.csv] and nowhere else:
    no artifact of any identifier, in any directory, is created or
    changed by it, and what a cycle claims afterwards is what it would
    have claimed before.  When the request is answered and the file can be
    written, the file holds the response. *)
Theorem FetchSATCAT_leaves_artifacts_alone (env : Env) (w : World) :
  let r := FetchSATCAT env w in
  (forall dir id, fs r.2 !! tle_path dir id = fs w !! tle_path dir id)
  /\ (forall rows cursor batch dir,
        claimed env rows cursor batch dir r.2 = claimed env rows cursor batch dir w)
  /\ (forall resp,
        PostForm env (posts w) (Getenv env "SPACETRACKLOGINURL")
          (Getenv env "SPACETRACKAPIROOT"
             +:+ "/query/class/satcat/orderby/LAUNCH asc/format/tle/metadata/false")
        = Some resp ->
        create_denied env "satcat.csv" = false ->
        write_denied env "satcat.csv" resp = false ->
        r.1 = Normal /\ fs r.2 !! "satcat.csv" = Some resp).
Proof.
  cbv zeta.
  assert (forall p, p ≠ "satcat.csv" -> fs (FetchSATCAT env w).2 !! p = fs w !! p) as Hframe.
  { intros p Hp. unfold FetchSATCAT, STPOST.
    destruct (PostForm env (posts w) _ _) as [resp|]; [|reflexivity].
    pose proof (WriteFile_frame env "satcat.csv" resp p
                  (emit (Posted (Getenv env "SPACETRACKLOGINURL")
                           (Getenv env "SPACETRACKAPIROOT"
                              +:+ "/query/class/satcat/orderby/LAUNCH asc/format/tle/metadata/false"))
                     w) Hp) as Hf.
    destruct (WriteFile env "satcat.csv" resp _) as [[] w2]; exact Hf. }
  split; [|split].
  - intros dir id. apply Hframe, tle_path_not_satcat.
  - intros rows cursor batch dir.
    apply (claimed_agree env rows cursor batch dir (λ p, p ≠ "satcat.csv")).
    + intros id. apply tle_path_not_satcat.
    + exact Hframe.
  - intros resp Hpost Hc Hw. unfold FetchSATCAT, STPOST. rewrite Hpost.
    destruct (WriteFile_ok env "satcat.csv" resp
                (emit (Posted (Getenv env "SPACETRACKLOGINURL")
                         (Getenv env "SPACETRACKAPIROOT"
                            +:+ "/query/class/satcat/orderby/LAUNCH asc/format/tle/metadata/false"))
                   w) Hc Hw) as (Hok & Hfile & _).
    destruct (WriteFile env "satcat.csv" resp _) as [ok w2]. simpl in *. subst ok.
    split; [reflexivity | exact Hfile].
Qed.

Lemma FetchSATCAT_leaves_artifacts_alone_witness :
  fs (FetchSATCAT env0 w_done).2 !! "satcat.csv" = Some resp_100_200
  /\ fs (FetchSATCAT env0 w_done).2 !! "tle/100.tle" = Some "1 00100U a".
Proof.
  pose proof (FetchSATCAT_leaves_artifacts_alone env0 w_done) as H.
  cbv zeta in H. destruct H as (H1 & _ & H3). split.
  - exact (proj2 (H3 resp_100_200 eq_refl eq_refl eq_refl)).
  - exact (H1 "tle" "100").
Defined.

(** ** Reading the catalog *)

Lemma row_of_record_fields (v : SatcatRow) (extra : list string) :
  row_of_record (fields_of_row v ++ extra) = Some v.
Proof. now destruct v. Qed.

Lemma row_of_record_short (r : list string) :
  (length r < 24)%nat -> row_of_record r = None.
Proof.
  intros H. do 24 (destruct r as [|? r]; [reflexivity |]). simpl in H. lia.
Qed.

Lemma row_of_record_long (r : list string) :
  (24 <= length r)%nat -> exists v, row_of_record r = Some v /\ r !! 1%nat = Some (NORADID v).
Proof.
  intros H. do 24 (destruct r as [|? r]; [simpl in H; lia |]).
  eexists. split; reflexivity.
Qed.

Lemma read_rows_records (reads : list csv_read) (rows acc : list SatcatRow) :
  Forall2 (λ rd v, exists extra, rd = CsvRecord (fields_of_row v ++ extra)) reads rows ->
  read_rows reads acc = (Normal, acc ++ rows).
Proof.
  intros H. revert acc. induction H as [|rd v reads rows [extra ->] _ IH]; intros acc.
  - simpl. now rewrite app_nil_r.
  - cbn [read_rows]. rewrite row_of_record_fields, IH, <- app_assoc. reflexivity.
Qed.

(** X13. Reading a catalog gives back its rows: when every read after
    the first is a record that starts with the 24 columns of a row, the
    result is these rows, as many and in the same order, each with the
    identifier of column 2; columns past the 24th are ignored, and so is
    the first read, the header, whatever it holds, an error included. *)
Theorem ParseSATCATCSV_reads_the_rows (header : csv_read) (reads : list csv_read)
  (rows : list SatcatRow) :
  Forall2 (λ rd v, exists extra, rd = CsvRecord (fields_of_row v ++ extra)) reads rows ->
  ParseSATCATCSV (Some (header :: reads)) = (Normal, rows)
  /\ length rows = length reads
  /\ (forall i v, rows !! i = Some v ->
        exists r, reads !! i = Some (CsvRecord r) /\ r !! 1%nat = Some (NORADID v)).
Proof.
  intros H. split; [|split].
  - simpl. now rewrite (read_rows_records reads rows [] H).
  - symmetry. eapply Forall2_length. exact H.
  - intros i v Hi.
    destruct (Forall2_lookup_r _ _ _ _ _ H Hi) as (rd & Hrd & extra & ->).
    eexists. split; [exact Hrd |]. now destruct v.
Qed.

Lemma ParseSATCATCSV_reads_the_rows_witness :
  ParseSATCATCSV (Some catalog_reads) = (Normal, [row "100"; row "200"; row "300"]).
Proof.
  apply (ParseSATCATCSV_reads_the_rows (CsvRecord (record "NORAD_CAT_ID"))).
  repeat constructor; now exists ["extra"].
Defined.

Lemma read_rows_good (good rest : list csv_read) (acc : list SatcatRow) :
  Forall (λ rd, exists r, rd = CsvRecord r /\ (24 <= length r)%nat) good ->
  exists acc', read_rows (good ++ rest) acc = read_rows rest acc'.
Proof.
  intros H. revert acc. induction H as [|rd good (r & -> & Hr) _ IH]; intros acc.
  - now exists acc.
  - cbn [app read_rows]. destruct (row_of_record_long r Hr) as (v & -> & _). apply IH.
Qed.

(** X14. Reading a catalog stops at the first read that is not a
    record of at least 24 columns: an error of the reader ends the process
    through [log.Fatal], a shorter record makes the row literal panic.  A
    file that cannot be opened, or that holds nothing at all, is fatal; a
    file that holds only a header gives no rows, on which [main] panics
    when it prints the first identifier. *)
Theorem ParseSATCATCSV_stops_at_the_first_bad_read (header : csv_read)
  (good rest : list csv_read) :
  Forall (λ rd, exists r, rd = CsvRecord r /\ (24 <= length r)%nat) good ->
  (ParseSATCATCSV (Some (header :: good ++ CsvError :: rest))).1 = Exit
  /\ (forall r, (length r < 24)%nat ->
        (ParseSATCATCSV (Some (header :: good ++ CsvRecord r :: rest))).1 = Panic)
  /\ (ParseSATCATCSV None).1 = Exit
  /\ (ParseSATCATCSV (Some [])).1 = Exit
  /\ ParseSATCATCSV (Some [header]) = (Normal, [])
  /\ (forall env sp fetch batch dir signals w,
        (main env {| elems := (ParseSATCATCSV (Some [header])).2; spare := sp |}
           fetch batch dir signals w).1.1 = Panic).
Proof.
  intros H. split; [|split; [|repeat split]].
  - simpl. destruct (read_rows_good good (CsvError :: rest) [] H) as [acc ->]. reflexivity.
  - intros r Hr. simpl.
    destruct (read_rows_good good (CsvRecord r :: rest) [] H) as [acc ->].
    cbn [read_rows]. now rewrite (row_of_record_short r Hr).
Qed.

Lemma ParseSATCATCSV_stops_at_the_first_bad_read_witness :
  (ParseSATCATCSV (Some (CsvRecord (record "NORAD_CAT_ID") :: [CsvRecord (record "100")]
                           ++ CsvError :: [CsvRecord (record "300")]))).1 = Exit
  /\ (ParseSATCATCSV (Some (CsvRecord ["INTLDES"; "NORAD_CAT_ID"] :: []
                              ++ CsvRecord ["1957-001A"; "1"] :: []))).1 = Panic.
Proof.
  split.
  - apply (ParseSATCATCSV_stops_at_the_first_bad_read (CsvRecord (record "NORAD_CAT_ID"))
             [CsvRecord (record "100")] [CsvRecord (record "300")]).
    repeat constructor. exists (record "100"). split; [reflexivity | simpl; lia].
  - apply (ParseSATCATCSV_stops_at_the_first_bad_read (CsvRecord ["INTLDES"; "NORAD_CAT_ID"])
             [] []); [constructor | simpl; lia].
Defined.

(** ** The scheduler *)

Lemma wrap_int_is_int (z : Z) : is_int (wrap_int z).
Proof.
  unfold is_int, min_int, max_int, wrap_int.
  pose proof (Z.mod_pos_bound (z + 2 ^ 63) (2 ^ 64) ltac:(lia)). lia.
Qed.

Lemma slice_bounds (rows : Rows) (lo hi : Z) (window : list SatcatRow) :
  slice rows lo hi = Some window -> 0 <= lo <= hi /\ hi <= cap rows.
Proof.
  unfold slice. destruct (Z.leb_spec 0 lo); [|discriminate].
  destruct (Z.leb_spec lo hi); [|discriminate].
  destruct (Z.leb_spec hi (cap rows)); [|discriminate]. lia.
Qed.

(** X15. A run of [n] ticks that all complete leaves the cursor at
    [cursor + n * batchSize], and can only complete when the batch size is
    not negative and that position is within the capacity of the catalog:
    once the cursor has passed it, no cycle completes any more. *)
Theorem completed_cycles_fit_the_catalog (env : Env) (rows : Rows) (batch : Z) (dir : string)
  (n : nat) : forall (cursor : Z) (w : World),
  is_int cursor -> is_int batch -> (0 < n)%nat ->
  (event_loop env rows batch dir (cycles n) cursor w).1.1 = Normal ->
  (event_loop env rows batch dir (cycles n) cursor w).1.2 = cursor + Z.of_nat n * batch
  /\ 0 <= cursor /\ 0 <= batch
  /\ cursor + Z.of_nat n * batch <= cap rows.
Proof.
  induction n as [|n IH]; intros cursor w Hc Hb Hn Hrun; [lia |].
  change (cycles (S n)) with (Tick :: cycles n) in *. simpl event_loop in *.
  assert ((FetchTLEsForSATCAT env rows cursor batch dir w).1 = Normal ->
          exists window, slice rows cursor (wrap_int (cursor + batch)) = Some window) as Hsl.
  { unfold FetchTLEsForSATCAT.
    destruct (slice rows cursor (wrap_int (cursor + batch))); [eauto | discriminate]. }
  destruct (FetchTLEsForSATCAT env rows cursor batch dir w) as [o w1].
  destruct o; try discriminate.
  destruct (Hsl eq_refl) as [window Hs].
  pose proof (slice_no_wrap rows cursor batch window Hc Hb Hs) as Hwrap.
  apply slice_bounds in Hs. rewrite Hwrap in Hs, Hrun |- *.
  destruct n as [|n].
  - simpl. lia.
  - assert (is_int (cursor + batch)) as Hc' by (rewrite <- Hwrap; apply wrap_int_is_int).
    destruct (IH (cursor + batch) w1 Hc' Hb ltac:(lia) Hrun) as (Hcur & _ & _ & Hcap).
    rewrite Hcur. lia.
Qed.

Lemma completed_cycles_fit_the_catalog_witness :
  (event_loop env0 (catalog3 1) 2 "tle" (cycles 1) 0 w0).1.2 = 0 + Z.of_nat 1 * 2
  /\ 0 + Z.of_nat 1 * 2 <= cap (catalog3 1).
Proof.
  assert (is_int 0) as H0 by (unfold is_int, min_int, max_int; lia).
  assert (is_int 2) as H2 by (unfold is_int, min_int, max_int; lia).
  assert ((0 < 1)%nat) as H1 by lia.
  destruct (completed_cycles_fit_the_catalog env0 (catalog3 1) 2 "tle" 1 0 w0 H0 H2 H1 eq_refl)
    as (Ha & _ & _ & Hb).
  split; [exact Ha | exact Hb].
Defined.

(** X16. The loop serves the ticks that arrive before the first
    interrupt and nothing after it: whatever signals follow, no cycle
    starts once the interrupt is taken, and the interrupt itself changes
    neither the cursor nor any file. *)
Theorem scheduler_stops_at_the_interrupt (env : Env) (rows : Rows) (batch : Z) (dir : string)
  (signals : list signal) (cursor : Z) (w : World) :
  event_loop env rows batch dir signals cursor w
  = event_loop env rows batch dir (cycles (ticks_served signals)) cursor w.
Proof.
  revert cursor w. induction signals as [|[] rest IH]; intros cursor w; try reflexivity.
  change (cycles (ticks_served (Tick :: rest))) with (Tick :: cycles (ticks_served rest)).
  simpl. destruct (FetchTLEsForSATCAT env rows cursor batch dir w) as [[] w1]; auto.
Qed.

Lemma append_only_refl (w : World) : append_only w w.
Proof. intros p x H. exists "". now rewrite append_nil_r. Qed.

Lemma append_only_trans (w1 w2 w3 : World) :
  append_only w1 w2 -> append_only w2 w3 -> append_only w1 w3.
Proof.
  intros H12 H23 p x H. destruct (H12 p x H) as [y Hy].
  destruct (H23 p _ Hy) as [z Hz]. exists (y +:+ z). now rewrite <- append_assoc.
Qed.

Lemma append_only_claim (env : Env) (dir : string) (v : SatcatRow) (c : Claims) (w : World) :
  append_only w (claim env dir v c w).2.
Proof.
  unfold claim, OpenFile. destruct (create_denied env _); [apply append_only_refl |].
  destruct (fs w !! tle_path dir (NORADID v)) eqn:E;
    [intros p x Hp; exists ""; simpl; now rewrite append_nil_r |].
  assert (append_only w (emit (Created (tle_path dir (NORADID v)))
                           {| fs := <[tle_path dir (NORADID v) := ""]> (fs w);
                              events := events w |})) as H.
  { intros p x Hp. exists "". simpl. rewrite lookup_insert_ne by congruence.
    now rewrite append_nil_r. }
  destruct (Atoi (NORADID v)); exact H.
Qed.

Lemma append_only_claim_loop (env : Env) (dir : string) (window : list SatcatRow)
  (c : Claims) (w : World) :
  append_only w (claim_loop env dir window c w).2.
Proof.
  revert c w. induction window as [|v rest IH]; intros c w; simpl;
    [apply append_only_refl |].
  pose proof (append_only_claim env dir v c w) as H.
  destruct (claim env dir v c w) as [[[] c1] w1]; simpl in *; auto.
  eapply append_only_trans; [exact H | apply IH].
Qed.

Lemma append_only_route (env : Env) (files : gmap Z string) (line : string) (w : World) :
  append_only w (route env files line w).2.
Proof.
  unfold route. destruct (str_slice line 2 7); [|apply append_only_refl].
  destruct (Atoi _); [|apply append_only_refl].
  destruct (files !! _) as [f|]; [|apply append_only_refl].
  unfold WriteString. destruct (write_denied env f line); [apply append_only_refl |].
  intros p x Hp. simpl. rewrite lookup_insert. destruct (decide (f = p)) as [->|].
  - exists line. unfold content. now rewrite Hp.
  - exists "". now rewrite append_nil_r.
Qed.

Lemma append_only_demux (env : Env) (files : gmap Z string) (lines : list string)
  (w : World) :
  append_only w (demux env files lines w).2.
Proof.
  revert w. induction lines as [|line rest IH]; intros w; simpl; [apply append_only_refl |].
  pose proof (append_only_route env files line w) as H.
  destruct (route env files line w) as [[] w1]; simpl in *; auto.
  eapply append_only_trans; [exact H | apply IH].
Qed.

Lemma append_only_FetchTLEsForSATCAT (env : Env) (rows : Rows) (start num : Z)
  (dir : string) (w : World) :
  append_only w (FetchTLEsForSATCAT env rows start num dir w).2.
Proof.
  unfold FetchTLEsForSATCAT.
  destruct (slice rows start (wrap_int (start + num))) as [window|];
    [|apply append_only_refl].
  pose proof (append_only_claim_loop env dir window no_claims w) as H.
  destruct (claim_loop env dir window no_claims w) as [[[] c] w1]; simpl in *; auto.
  destruct (String.eqb (noradIDQuery c) ""); [exact H |].
  destruct (drop_last (noradIDQuery c)) as [ids|]; [|exact H].
  unfold STPOST. destruct (PostForm env (posts w1) _ _) as [resp|]; [|exact H].
  eapply append_only_trans; [exact H |]. unfold demux_response.
  apply (append_only_demux env (files c) _
           (emit (Posted (Getenv env "SPACETRACKLOGINURL") (query_url env ids)) w1)).
Qed.

(** X17. The scheduler only ever appends: over any run of its loop a
    file that exists stays, and what it held stays at its front; no
    artifact is truncated, rewritten or removed.  (A single fetch, which
    writes with [ioutil.WriteFile], does replace the artifact.) *)
Theorem scheduler_only_appends (env : Env) (rows : Rows) (batch : Z) (dir : string)
  (signals : list signal) (cursor : Z) (w : World) (p x : string) :
  fs w !! p = Some x ->
  exists y, fs (event_loop env rows batch dir signals cursor w).2 !! p = Some (x +:+ y).
Proof.
  revert p x. fold (append_only w (event_loop env rows batch dir signals cursor w).2).
  revert cursor w. induction signals as [|[] rest IH]; intros cursor w; simpl;
    try apply append_only_refl.
  pose proof (append_only_FetchTLEsForSATCAT env rows cursor batch dir w) as H.
  destruct (FetchTLEsForSATCAT env rows cursor batch dir w) as [[] w1]; simpl in *; auto.
  eapply append_only_trans; [exact H | apply IH].
Qed.

Lemma scheduler_only_appends_witness :
  exists y, fs (event_loop env0 (catalog3 1) 1 "tle" (cycles 3) 0 w_done).2 !! "tle/100.tle"
            = Some ("1 00100U a" +:+ y).
Proof.
  apply (scheduler_only_appends env0 (catalog3 1) 1 "tle" (cycles 3) 0 w_done
           "tle/100.tle" "1 00100U a").
  reflexivity.
Defined.
